(** * DBusWrapper::PropertyCache — a shallow embedding and its properties

    The development follows [src/dbuspropertycache.cpp],
    [src/dbuspropertycache_p.h] and [include/dbustarget.h]:

    - [Target]                   the (bus, service, path, interface) tuple;
    - [PropertyCacheBackend]     one per target, owns the D-Bus activity;
    - [PropertyCacheThreadData]  one per (target, thread), the thread's view;
    - [PropertyCache]            the user-facing handle and its private part.

    Every C++ method becomes a computation in a small state-and-trace monad:
    the state is the object the method runs on, the trace lists, in program
    order, the signals it emits and the calls it hands to Qt. *)

From Stdlib Require Import ZArith.
From stdpp Require Import gmap strings list fin_maps sorting.

Set Default Proof Using "Type".

(** ** Qt value types *)

Abbreviation QString := string.

(** [QVariant]: the dynamically typed value carried by the bus. [Invalid] is
    the default-constructed [QVariant()]; [VDBusVariant] is a [QVariant]
    holding a [QDBusVariant]. *)
Inductive QVariant : Type :=
  | Invalid
  | VBool (b : bool)
  | VInt (n : Z)
  | VString (s : QString)
  | VDBusVariant (v : QVariant).

#[global] Instance QVariant_eq_dec : EqDecision QVariant.
Proof. intros x y; unfold Decision; decide equality; solve_decision. Defined.

Definition isValidVariant (v : QVariant) : bool :=
  match v with Invalid => false | _ => true end.

(** [QVariantMap] is [QMap<QString, QVariant>]: unique keys, iterated in
    ascending key order (the lexicographic order of the code units, which
    is [String.le] on the strings met here). *)
Abbreviation QVariantMap := (gmap QString QVariant).

Definition key_le (a b : QString * QVariant) : Prop := String.le a.1 b.1.

#[global] Instance key_le_dec : RelDecision key_le.
Proof. intros a b; unfold key_le; apply _. Defined.

(** The entries of a map in the order [constBegin() .. constEnd()] visits
    them. *)
Definition items (m : QVariantMap) : list (QString * QVariant) :=
  merge_sort key_le (map_to_list m).

(** [QMap::isEmpty]. *)
Definition isEmpty (m : QVariantMap) : bool := bool_decide (m = ∅).

(** [QMap::contains]. *)
Definition qcontains (m : QVariantMap) (k : QString) : bool :=
  bool_decide (is_Some (m !! k)).

(** [QMap::value]: a default-constructed value when the key is missing. *)
Definition qvalue (m : QVariantMap) (k : QString) : QVariant :=
  default Invalid (m !! k).

Module QDBusError.

(** The error kinds of [QDBusError::ErrorType] the library names or the
    tests meet; [NoError] is the kind of a default-constructed error. *)
Inductive ErrorType : Type :=
  | NoError | Other | Failed | ServiceUnknown | NoReply
  | UnknownInterface | UnknownObject.

#[global] Instance ErrorType_eq_dec : EqDecision ErrorType.
Proof. solve_decision. Defined.

Record t : Type := mk { type : ErrorType; message : QString }.

#[global] Instance eq_dec : EqDecision t.
Proof. solve_decision. Defined.

(** [QDBusError()] *)
Definition none : t := {| type := NoError; message := "" |}.

Definition isValid (e : t) : bool := bool_decide (type e ≠ NoError).

End QDBusError.

(** ** The state-and-trace monad *)

Definition M (S E A : Type) : Type := S → A * S * list E.

Definition ret {S E A} (a : A) : M S E A := λ s, (a, s, []).

Definition bind {S E A B} (m : M S E A) (k : A → M S E B) : M S E B :=
  λ s, let '(a, s1, t1) := m s in
       let '(b, s2, t2) := k a s1 in
       (b, s2, t1 ++ t2).

Definition gets {S E A} (f : S → A) : M S E A := λ s, (f s, s, []).
Definition modify {S E} (f : S → S) : M S E unit := λ s, (tt, f s, []).
Definition tell {S E} (e : E) : M S E unit := λ s, (tt, s, [e]).

(** An effect that may inspect the state at the moment it happens: a signal
  emission runs its listeners there and then. *)
Definition tell_at {S E} (e : S → E) : M S E unit := λ s, (tt, s, [e s]).

Declare Scope monad_scope.
Delimit Scope monad_scope with monad.
Notation "x <- c ;; k" := (bind c (λ x, k))
(at level 100, c at next level, right associativity) : monad_scope.
Notation "c ;; k" := (bind c (λ _, k))
(at level 100, right associativity) : monad_scope.
Open Scope monad_scope.

(** [if (c) body;] *)
Definition when {S E} (c : bool) (body : M S E unit) : M S E unit :=
if c then body else ret tt.

(** [for (auto it = l.begin(); it != l.end(); it++) body(it);] *)
Fixpoint for_each {S E A} (l : list A) (body : A → M S E unit) : M S E unit :=
match l with
| [] => ret tt
| x :: l' => body x ;; for_each l' body
end.

Definition state_of {S E A} (r : A * S * list E) : S := r.1.2.
Definition trace_of {S E A} (r : A * S * list E) : list E := r.2.
Definition value_of {S E A} (r : A * S * list E) : A := r.1.1.

(** ** Target ([include/dbustarget.h]) *)

Module Target.

(** The bus is identified by its connection name, as [operator==] does. *)
Record t : Type := mk {
  bus : QString;
  service : QString;
  path : QString;
  interface : QString
}.

#[global] Instance eq_dec : EqDecision t.
Proof. solve_decision. Defined.

Definition qstring_isEmpty (s : QString) : bool := bool_decide (s = "").

Definition isValid (tg : t) : bool :=
  negb (qstring_isEmpty (service tg)) && negb (qstring_isEmpty (path tg))
  && negb (qstring_isEmpty (interface tg)).

Definition withPath (tg : t) (p : QString) : t :=
  mk (bus tg) (service tg) p (interface tg).
Definition withInterface (tg : t) (i : QString) : t :=
  mk (bus tg) (service tg) (path tg) i.
Definition with_ (tg : t) (p i : QString) : t :=
  mk (bus tg) (service tg) p i.

End Target.

(** [dbusutilities]: the two constants and the argument conversion. *)
Definition k_property_interface : QString := "org.freedesktop.DBus.Properties".
Definition k_properties_changed_signal_name : QString := "PropertiesChanged".

(** An argument handed to [createMethodCall]: the template is instantiated
  at [QString] and at [QVariant] in this library. *)
Inductive Arg : Type :=
| ArgString (s : QString)
| ArgVariant (v : QVariant).

Definition toDBusArgVariant (a : Arg) : QVariant :=
match a with
| ArgString s => VString s
| ArgVariant (VDBusVariant v) => VDBusVariant v
| ArgVariant v => VDBusVariant v
end.

Record QDBusMessage : Type := {
msg_service : QString;
msg_path : QString;
msg_interface : QString;
msg_member : QString;
msg_arguments : list QVariant
}.

#[global] Instance QDBusMessage_eq_dec : EqDecision QDBusMessage.
Proof. solve_decision. Defined.

Definition createMethodCall (tg : Target.t) (method : QString) (args : list Arg)
: QDBusMessage :=
{| msg_service := Target.service tg;
   msg_path := Target.path tg;
   msg_interface := Target.interface tg;
   msg_member := method;
   msg_arguments := toDBusArgVariant <$> args |}.

(** The trace records the [qCInfo], [qCWarning] and [qCCritical] calls the
    code makes, not what is printed: the categories are declared at
    threshold [QtWarningMsg], so unless a category is configured otherwise
    an [Info] entry prints nothing. The [qCDebug] calls are left out of the
    trace. No property below depends on an [Info] entry. *)
Inductive LogLevel : Type := Info | Warning | Critical.

#[global] Instance LogLevel_eq_dec : EqDecision LogLevel.
Proof. solve_decision. Defined.

(** ** PropertyCacheBackend *)

Module PropertyCacheBackend.

(** The identity of a [QDBusPendingCallWatcher] allocated by [load]. *)
Abbreviation Watcher := nat.

Record t : Type := mk {
  m_target : Target.t;
  m_properties : QVariantMap;
  m_error : QDBusError.t;
  m_available : bool;
  m_watcher : bool;                 (* has the QDBusServiceWatcher been made *)
  m_pendingLoad : option Watcher;   (* nullptr is [None] *)
  allocated : Watcher               (* watchers allocated so far *)
}.

Definition set_properties (p : QVariantMap) (b : t) : t :=
  mk (m_target b) p (m_error b) (m_available b) (m_watcher b)
     (m_pendingLoad b) (allocated b).
Definition set_error (e : QDBusError.t) (b : t) : t :=
  mk (m_target b) (m_properties b) e (m_available b) (m_watcher b)
     (m_pendingLoad b) (allocated b).
Definition set_available (a : bool) (b : t) : t :=
  mk (m_target b) (m_properties b) (m_error b) a (m_watcher b)
     (m_pendingLoad b) (allocated b).
Definition set_watcher (w : bool) (b : t) : t :=
  mk (m_target b) (m_properties b) (m_error b) (m_available b) w
     (m_pendingLoad b) (allocated b).
Definition set_pendingLoad (p : option Watcher) (b : t) : t :=
  mk (m_target b) (m_properties b) (m_error b) (m_available b) (m_watcher b)
     p (allocated b).
Definition set_allocated (n : Watcher) (b : t) : t :=
  mk (m_target b) (m_properties b) (m_error b) (m_available b) (m_watcher b)
     (m_pendingLoad b) n.

(** The two signals of the class. *)
Inductive Signal : Type :=
  | reset (values : QVariantMap) (error : QDBusError.t)
  | changeProperties (values : QVariantMap).

Inductive Effect : Type :=
  | Emit (s : Signal)
    (* new QDBusServiceWatcher(service, bus, WatchForOwnerChange), connected
       to serviceOwnerChanged *)
  | WatchServiceOwner (bus service : QString)
    (* bus.connect(service, path, interface, name, argumentMatch, ...),
       connected to propertiesChanged *)
  | ConnectSignal (bus service path interface name : QString)
                  (argumentMatch : list QString)
    (* bus.asyncCall(msg), its reply watched by w and routed to loadReply *)
  | AsyncCall (bus : QString) (msg : QDBusMessage) (w : Watcher)
  | DeleteLater (w : Watcher)
    (* QTimer::singleShot(msec, this, &load) *)
  | SingleShotLoad (msec : nat)
  | Log (level : LogLevel) (text : QString).

(** The state a constructor leaves; the constructor also queues [load]. *)
Definition new (target : Target.t) : t :=
  mk target ∅ QDBusError.none false false None 0.

Definition propertiesTarget (b : t) : Target.t :=
  Target.withInterface (m_target b) k_property_interface.

(** [load]; the elapsed-time timer, started only when debug logging is on,
    is left out. *)
Definition load : M t Effect unit :=
  pending <- gets m_pendingLoad ;;
  match pending with
  | Some _ => ret tt
  | None =>
      watcher <- gets m_watcher ;;
      when (negb watcher) (
        tg <- gets m_target ;;
        modify (set_watcher true) ;;
        tell (WatchServiceOwner (Target.bus tg) (Target.service tg)) ;;
        tell (ConnectSignal (Target.bus tg) (Target.service tg) (Target.path tg)
                k_property_interface k_properties_changed_signal_name
                [Target.interface tg])) ;;
      tg <- gets m_target ;;
      ptg <- gets propertiesTarget ;;
      let msg := createMethodCall ptg "GetAll" [ArgString (Target.interface tg)] in
      w <- gets allocated ;;
      modify (set_allocated (S w)) ;;
      tell (AsyncCall (Target.bus tg) msg w) ;;
      modify (set_pendingLoad (Some w))
  end.

Definition doReset (properties : QVariantMap) (error : QDBusError.t)
  : M t Effect unit :=
  modify (set_properties properties) ;;
  modify (set_error error) ;;
  modify (set_available (negb (QDBusError.isValid error))) ;;
  tell (Emit (reset properties error)).

(** A [QDBusPendingReply<QVariantMap>] once finished. *)
Inductive Reply : Type :=
  | ReplyError (error : QDBusError.t)
  | ReplyValue (value : QVariantMap).

Definition loadReply (w : Watcher) (reply : Reply) : M t Effect unit :=
  tell (DeleteLater w) ;;
  pending <- gets m_pendingLoad ;;
  if bool_decide (Some w ≠ pending) then ret tt
  else
    modify (set_pendingLoad None) ;;
    match reply with
    | ReplyError error =>
        (if bool_decide (QDBusError.type error = QDBusError.ServiceUnknown)
         then tell (Log Info "service is unavailable, waiting to load properties")
         else tell (Log Warning "loading properties failed")) ;;
        doReset ∅ error
    | ReplyValue value => doReset value QDBusError.none
    end.

Definition serviceOwnerChanged (service oldOwner newOwner : QString)
  : M t Effect unit :=
  pending <- gets m_pendingLoad ;;
  match pending with
  | Some w => tell (DeleteLater w) ;; modify (set_pendingLoad None)
  | None => ret tt
  end ;;
  if Target.qstring_isEmpty newOwner then
    tell (Log Info "service disconnected, resetting properties") ;;
    doReset ∅ (QDBusError.mk QDBusError.ServiceUnknown "DBus service disconnected")
  else
    tell (Log Info "service is now available, loading properties") ;;
    tell (SingleShotLoad 50).

(** The loop of [propertiesChanged]: it walks the entries of the received
    map, writes each new or differing one into [m_properties] and erases
    each redundant one from the received map. *)
Fixpoint propertiesChanged_loop (its : list (QString * QVariant))
    (values : QVariantMap) : M t Effect QVariantMap :=
  match its with
  | [] => ret values
  | (key, value) :: rest =>
      props <- gets m_properties ;;
      match props !! key with
      | None =>
          modify (set_properties (<[key := value]> props)) ;;
          propertiesChanged_loop rest values
      | Some cached =>
          if bool_decide (cached ≠ value) then
            modify (set_properties (<[key := value]> props)) ;;
            propertiesChanged_loop rest values
          else
            propertiesChanged_loop rest (delete key values)
      end
  end.

Definition propertiesChanged (interface : QString) (values : QVariantMap)
  : M t Effect unit :=
  pending <- gets m_pendingLoad ;;
  match pending with
  | Some _ => ret tt
  | None =>
      available <- gets m_available ;;
      if negb available then load
      else
        values' <- propertiesChanged_loop (items values) values ;;
        tell (Emit (changeProperties values'))
  end.

(** What reaches a Backend from its event loop. *)
Inductive Event : Type :=
  | Load
  | LoadReply (w : Watcher) (reply : Reply)
  | ServiceOwnerChanged (service oldOwner newOwner : QString)
  | PropertiesChanged (interface : QString) (values : QVariantMap).

Definition handle (ev : Event) : M t Effect unit :=
  match ev with
  | Load => load
  | LoadReply w reply => loadReply w reply
  | ServiceOwnerChanged s o n => serviceOwnerChanged s o n
  | PropertiesChanged i values => propertiesChanged i values
  end.

Definition run (evs : list Event) : M t Effect unit := for_each evs handle.

(** The signals among the effects of a trace, and the bus calls among them. *)
Definition signals (tr : list Effect) : list Signal :=
  omap (λ e, match e with Emit s => Some s | _ => None end) tr.

Definition calls (tr : list Effect) : list QDBusMessage :=
  omap (λ e, match e with AsyncCall _ msg _ => Some msg | _ => None end) tr.

End PropertyCacheBackend.

(** ** Signals of the thread view and of the handle

    [PropertyCacheThreadData] and [PropertyCache] declare the same six
    signals. *)
Inductive Signal : Type :=
  | availableChanged (available : bool)
  | errorChanged (error : QDBusError.t)
  | ready
  | lost
  | propertyChanged (property : QString) (value : QVariant)
  | propertiesReset (properties : QVariantMap).

Inductive SignalKind : Type :=
  | AvailableChanged | ErrorChanged | Ready | Lost
  | PropertyChanged | PropertiesReset.

#[global] Instance SignalKind_eq_dec : EqDecision SignalKind.
Proof. solve_decision. Defined.

Definition kind_of (s : Signal) : SignalKind :=
  match s with
  | availableChanged _ => AvailableChanged
  | errorChanged _ => ErrorChanged
  | ready => Ready
  | lost => Lost
  | propertyChanged _ _ => PropertyChanged
  | propertiesReset _ => PropertiesReset
  end.

(** ** PropertyCacheThreadData *)

Module PropertyCacheThreadData.

Record t : Type := mk {
  m_target : Target.t;
  m_properties : QVariantMap;
  m_error : QDBusError.t;
  m_available : bool
}.

Definition set_properties (p : QVariantMap) (d : t) : t :=
  mk (m_target d) p (m_error d) (m_available d).
Definition set_error (e : QDBusError.t) (d : t) : t :=
  mk (m_target d) (m_properties d) e (m_available d).
Definition set_available (a : bool) (d : t) : t :=
  mk (m_target d) (m_properties d) (m_error d) a.

(** An emitted signal, with the state of the object while the connected
    slots run: what a listener reads back during the emission. *)
Record Emission : Type := { signal : Signal; seen : t }.

Definition emit (s : Signal) : M t Emission unit :=
  tell_at (λ d, {| signal := s; seen := d |}).

(** The constructor copies the Backend's state under its data mutex. *)
Definition new (target : Target.t) (backend : PropertyCacheBackend.t) : t :=
  mk target (PropertyCacheBackend.m_properties backend)
     (PropertyCacheBackend.m_error backend)
     (PropertyCacheBackend.m_available backend).

(** [localInstance]: the thread's live instance for the target when there
    is one, a new one otherwise. *)
Definition localInstance (existing : option t) (target : Target.t)
    (backend : PropertyCacheBackend.t) : t :=
  match existing with
  | Some ref => ref
  | None => new target backend
  end.

(** The condition of the [Q_ASSERT] that opens [reset]; the macro expands to
    nothing in a release build and [reset] below runs on either way. *)
Definition reset_asserts (values : QVariantMap) (error : QDBusError.t) : bool :=
  negb (QDBusError.isValid error) || isEmpty values.

Definition reset (values : QVariantMap) (error : QDBusError.t)
  : M t Emission unit :=
  let available := negb (QDBusError.isValid error) in
  wasAvailable <- gets m_available ;;
  before <- gets m_properties ;;
  old_error <- gets m_error ;;
  let errorChange :=
    bool_decide (QDBusError.type old_error ≠ QDBusError.type error) in
  modify (set_available available) ;;
  modify (set_error error) ;;
  modify (set_properties values) ;;
  now_available <- gets m_available ;;
  when (bool_decide (wasAvailable ≠ now_available))
    (emit (availableChanged now_available)) ;;
  when errorChange (emit (errorChanged error)) ;;
  when (negb (isEmpty values) || negb (isEmpty before))
    (props <- gets m_properties ;; emit (propertiesReset props)) ;;
  props <- gets m_properties ;;
  for_each (items props) (λ it,
    when (match before !! it.1 with
          | None => true
          | Some old => bool_decide (old ≠ it.2)
          end)
      (emit (propertyChanged it.1 it.2))) ;;
  for_each (items before) (λ it,
    props <- gets m_properties ;;
    when (negb (qcontains props it.1))
      (emit (propertyChanged it.1 Invalid))) ;;
  now_available <- gets m_available ;;
  when (wasAvailable && negb now_available) (emit lost) ;;
  when (negb wasAvailable && now_available) (emit ready).

Definition changeProperties (values : QVariantMap) : M t Emission unit :=
  for_each (items values) (λ it,
    modify (λ d, set_properties (<[it.1 := it.2]> (m_properties d)) d)) ;;
  for_each (items values) (λ it, emit (propertyChanged it.1 it.2)).

(** Queued delivery of a Backend signal to the connected slot. *)
Definition deliver (s : PropertyCacheBackend.Signal) : M t Emission unit :=
  match s with
  | PropertyCacheBackend.reset values error => reset values error
  | PropertyCacheBackend.changeProperties values => changeProperties values
  end.

End PropertyCacheThreadData.

(** ** PropertyCache and PropertyCachePrivate *)

Module PropertyCache.

Import PropertyCacheThreadData.

(** The handle: [data] is the thread view it points to (shared with the
    other handles of the thread; no method below writes to it),
    [initialized] the flag of the private part, [connections] the
    signal-to-signal connections made from [data] to this handle, one entry
    per [QObject::connect] call. *)
Record t : Type := mk {
  data : PropertyCacheThreadData.t;
  initialized : bool;
  connections : list SignalKind
}.

Definition set_initialized (i : bool) (c : t) : t :=
  mk (data c) i (connections c).
Definition connect (k : SignalKind) (c : t) : t :=
  mk (data c) (initialized c) (connections c ++ [k]).
(** The handle as it stands when its thread view is in state [d]. *)
Definition with_data (d : PropertyCacheThreadData.t) (c : t) : t :=
  mk d (initialized c) (connections c).

Inductive Effect : Type :=
    (* emit q->signal(...), with the handle as listeners read it *)
  | Emit (s : Signal) (seen : t)
    (* QMetaObject::invokeMethod(q, [this]() { initialize(); }, Qt::QueuedConnection) *)
  | InvokeQueuedInitialize
    (* bus.asyncCall(msg), its reply routed to the completion lambda *)
  | AsyncCall (bus : QString) (msg : QDBusMessage)
  | Log (level : LogLevel) (text : QString).

Definition emit (s : Signal) : M t Effect unit := tell_at (Emit s).

Definition isAvailable (c : t) : bool :=
  initialized c && m_available (data c).

Definition error (c : t) : QDBusError.t :=
  if initialized c then m_error (data c) else QDBusError.none.

Definition get (c : t) (property : QString) : QVariant :=
  if negb (initialized c) then Invalid
  else qvalue (m_properties (data c)) property.

Definition contains (c : t) (property : QString) : bool :=
  if negb (initialized c) then false
  else qcontains (m_properties (data c)) property.

Definition getAll (c : t) : QVariantMap :=
  if negb (initialized c) then ∅ else m_properties (data c).

(** [PropertyCachePrivate::initialize] *)
Definition initialize_private : M t Effect unit :=
  already <- gets initialized ;;
  if already then ret tt
  else
    modify (connect AvailableChanged) ;;
    modify (connect ErrorChanged) ;;
    modify (connect Ready) ;;
    modify (connect Lost) ;;
    modify (connect PropertyChanged) ;;
    modify (connect PropertiesReset) ;;
    modify (set_initialized true) ;;
    d <- gets data ;;
    when (QDBusError.isValid (m_error d)) (emit (errorChanged (m_error d))) ;;
    d <- gets data ;;
    if negb (m_available d) then ret tt
    else
      emit (availableChanged true) ;;
      emit (propertiesReset (m_properties d)) ;;
      for_each (items (m_properties d)) (λ it,
        emit (propertyChanged it.1 it.2)) ;;
      emit ready.

(** [PropertyCache::initialize] *)
Definition initialize : M t Effect bool :=
  initialize_private ;;
  d <- gets data ;;
  ret (m_available d || QDBusError.isValid (m_error d)).

(** The constructor of the private part, run on the handle as the member
    initialisers leave it. *)
Definition construct : M t Effect unit :=
  d <- gets data ;;
  if negb (m_available d) && negb (QDBusError.isValid (m_error d))
  then initialize_private
  else tell InvokeQueuedInitialize.

Definition new (d : PropertyCacheThreadData.t) : t * list Effect :=
  let r := construct (mk d false []) in (state_of r, trace_of r).

(** [PropertyCache::set] *)
Definition set (property : QString) (value : QVariant) : M t Effect unit :=
  target <- gets (λ c, m_target (data c)) ;;
  let msg :=
    createMethodCall (Target.withInterface target k_property_interface) "Set"
      [ArgString (Target.interface target); ArgString property;
       ArgVariant value] in
  tell (AsyncCall (Target.bus target) msg).

(** The completion lambda of [set]; the reply of a [QDBusPendingReply<>] is
    an error or nothing. *)
Definition set_finished (property : QString) (reply : option QDBusError.t)
  : M t Effect unit :=
  when (bool_decide (is_Some reply))
    (tell (Log Warning "failed to set property")).

(** [PropertyCache::event] on a [QEvent::ThreadChange]. *)
Definition event_ThreadChange : M t Effect unit :=
  tell (Log Critical "BUG: thread changed").

(** What the connections of the handle re-emit for one emission of its
    thread view: once per matching connection. *)
Definition relay (c : t) (e : Emission) : list Effect :=
  (λ _, Emit (signal e) (with_data (seen e) c))
    <$> filter (λ k, k = kind_of (signal e)) (connections c).

Definition emitted (tr : list Effect) : list Signal :=
  omap (λ e, match e with Emit s _ => Some s | _ => None end) tr.

End PropertyCache.

(** ** The delivery contract of the thread view, as the specification words it *)

Module DeliveryContract.

Import PropertyCacheThreadData.

(** Step 2: the local state after [reset(new_props, new_error)]. *)
Definition post_reset (old : t) (new_props : QVariantMap)
    (new_error : QDBusError.t) : t :=
  {| m_target := m_target old;
     m_properties := new_props;
     m_error := new_error;
     m_available := negb (QDBusError.isValid new_error) |}.

(** Step 3, items a to g, in that order. *)
Definition reset_signals (old : t) (new_props : QVariantMap)
    (new_error : QDBusError.t) : list Signal :=
  let before := m_properties old in
  let wasAvailable := m_available old in
  let available := negb (QDBusError.isValid new_error) in
  (if bool_decide (wasAvailable ≠ available)
   then [availableChanged available] else [])
  ++ (if bool_decide (QDBusError.type (m_error old) ≠ QDBusError.type new_error)
      then [errorChanged new_error] else [])
  ++ (if bool_decide (before ≠ ∅ ∨ new_props ≠ ∅)
      then [propertiesReset new_props] else [])
  ++ ((λ it, propertyChanged it.1 it.2)
        <$> filter (λ it, before !! it.1 ≠ Some it.2) (items new_props))
  ++ ((λ it, propertyChanged it.1 Invalid)
        <$> filter (λ it, new_props !! it.1 = None) (items before))
  ++ (if bool_decide (wasAvailable = true ∧ available = false)
      then [lost] else [])
  ++ (if bool_decide (wasAvailable = false ∧ available = true)
      then [ready] else []).

(** The filtered delta of a [PropertiesChanged] payload: the entries whose
    value is not the cached one. *)
Definition filtered_delta (cached changed : QVariantMap) : QVariantMap :=
  filter (λ it, cached !! it.1 ≠ Some it.2) changed.

End DeliveryContract.

(** ** The Backend invariants and the handle's replay, as the specification
    words them *)

Module Contract.

(** Invariant B1: available implies error absent. *)
Definition B1 (b : PropertyCacheBackend.t) : Prop :=
  PropertyCacheBackend.m_available b = true →
  QDBusError.isValid (PropertyCacheBackend.m_error b) = false.

(** Invariant B2: available = false implies properties empty. *)
Definition B2 (b : PropertyCacheBackend.t) : Prop :=
  PropertyCacheBackend.m_available b = false →
  PropertyCacheBackend.m_properties b = ∅.

(** What [initialize] emits on a handle that was not initialized: the error
    when there is one, and the availability sequence when the view is
    available. *)
Definition replay_signals (d : PropertyCacheThreadData.t) : list Signal :=
  let props := PropertyCacheThreadData.m_properties d in
  let error := PropertyCacheThreadData.m_error d in
  (if QDBusError.isValid error then [errorChanged error] else [])
  ++ (if PropertyCacheThreadData.m_available d
      then [availableChanged true; propertiesReset props]
           ++ ((λ it, propertyChanged it.1 it.2) <$> items props)
           ++ [ready]
      else []).

(** The six connections [initialize] makes, in the order of the calls. *)
Definition handle_connections : list SignalKind :=
  [AvailableChanged; ErrorChanged; Ready; Lost; PropertyChanged;
   PropertiesReset].

(** The handle once [initialize] has run on it for the first time. *)
Definition after_initialize (c : PropertyCache.t) : PropertyCache.t :=
  PropertyCache.mk (PropertyCache.data c) true
    (PropertyCache.connections c ++ handle_connections).

(** [n] calls of [PropertyCache::initialize] in a row. *)
Definition initialize_times (n : nat) : M PropertyCache.t PropertyCache.Effect unit :=
  for_each (replicate n ()) (λ _, _ <- PropertyCache.initialize ;; ret tt).


End Contract.

(** ** Concrete inputs *)

Module Examples.

(** The target of the test suite and a target with an empty service name. *)
Definition test_target : Target.t :=
  Target.mk "client" "test.service" "/test/service" "test.service".
Definition invalid_target : Target.t :=
  Target.mk "client" "" "/test/service" "test.service".

Definition str_one : QVariantMap := {[ "str" := VString "one" ]}.

(** A Backend that has loaded [str = "one"] and has no call pending. *)
Definition loaded_backend : PropertyCacheBackend.t :=
  PropertyCacheBackend.mk test_target str_one QDBusError.none true true None 1.

(** A thread view of a Backend that is still loading. *)
Definition loading_view : PropertyCacheThreadData.t :=
  PropertyCacheThreadData.mk test_target ∅ QDBusError.none false.

(** A thread view of a Backend that has loaded [str = "one"]. *)
Definition loaded_view : PropertyCacheThreadData.t :=
  PropertyCacheThreadData.mk test_target str_one QDBusError.none true.


End Examples.

(** ** The tiers composed *)

Module Pipeline.

(** The thread view drains its inbox: the Backend's signals are delivered
    one after the other, in the order they were emitted. *)
Definition deliver_all (sigs : list PropertyCacheBackend.Signal)
  : M PropertyCacheThreadData.t PropertyCacheThreadData.Emission unit :=
  for_each sigs PropertyCacheThreadData.deliver.

(** What one Backend event makes a thread view emit, and the view after. *)
Definition view_after (ev : PropertyCacheBackend.Event)
    (b : PropertyCacheBackend.t) (d : PropertyCacheThreadData.t)
  : unit * PropertyCacheThreadData.t * list PropertyCacheThreadData.Emission :=
  deliver_all
    (PropertyCacheBackend.signals (trace_of (PropertyCacheBackend.handle ev b)))
    d.

(** The event loop of the handle's thread runs what the constructor
    queued. *)
Definition run_queued (queued : list PropertyCache.Effect)
  : M PropertyCache.t PropertyCache.Effect unit :=
  for_each queued (λ e,
    match e with
    | PropertyCache.InvokeQueuedInitialize => PropertyCache.initialize_private
    | _ => ret tt
    end).

(** A signal's payload agrees with what the accessors of handle [c]
    return. *)
Definition agrees (c : PropertyCache.t) (s : Signal) : Prop :=
  match s with
  | availableChanged available => PropertyCache.isAvailable c = available
  | errorChanged error => PropertyCache.error c = error
  | ready => PropertyCache.isAvailable c = true
  | lost => PropertyCache.isAvailable c = false
  | propertyChanged property value => PropertyCache.get c property = value
  | propertiesReset properties => PropertyCache.getAll c = properties
  end.

(** The view a thread would construct from a Backend in state [b]. *)
Definition view_of (target : Target.t) (b : PropertyCacheBackend.t)
  : PropertyCacheThreadData.t :=
  PropertyCacheThreadData.new target b.

End Pipeline.

(** ** Counting what a Backend asks of the bus *)

Module BusActivity.

(** The subscriptions among the effects of a trace: the service-owner watch
    and the PropertiesChanged match. *)
Definition subscriptions (tr : list PropertyCacheBackend.Effect)
  : list PropertyCacheBackend.Effect :=
  omap (λ e, match e with
             | PropertyCacheBackend.WatchServiceOwner _ _
             | PropertyCacheBackend.ConnectSignal _ _ _ _ _ _ => Some e
             | _ => None
             end) tr.

(** The two subscriptions a Backend of [target] makes. *)
Definition subscriptions_of (target : Target.t)
  : list PropertyCacheBackend.Effect :=
  [PropertyCacheBackend.WatchServiceOwner (Target.bus target)
     (Target.service target);
   PropertyCacheBackend.ConnectSignal (Target.bus target)
     (Target.service target) (Target.path target) k_property_interface
     k_properties_changed_signal_name [Target.interface target]].

(** A [reset] is well formed when it passes the assertion of the slot that
    receives it; a [changeProperties] always is. *)
Definition well_formed (s : PropertyCacheBackend.Signal) : Prop :=
  match s with
  | PropertyCacheBackend.reset values error =>
      PropertyCacheThreadData.reset_asserts values error = true
  | PropertyCacheBackend.changeProperties _ => True
  end.

End BusActivity.

(** ** The Backend registry and the cache of unreferenced Backends

    [cacheBackends], [unusedCacheBackends] and [backendThread] are the
    statics of [dbuspropertycache.cpp]; every function below runs with
    [backendsMutex] held, so each is one step on the registry. A
    [QSharedPointer] and the [QWeakPointer]s taken from it name one control
    block, which counts the strong references; the deleter
    [backendReleased] is called, in a step of its own, by whoever dropped
    the last of them. *)

Module BackendRegistry.

#[global] Instance Target_countable : Countable Target.t.
Proof.
  apply (inj_countable'
    (λ tg, (Target.bus tg, Target.service tg, Target.path tg,
            Target.interface tg))
    (λ q, Target.mk q.1.1.1 q.1.1.2 q.1.2 q.2)).
  by intros [].
Defined.

(** A [PropertyCacheBackend] on the heap: its address and its constant
    [m_target]. *)
Record Object : Type := { address : nat; m_target : Target.t }.

#[global] Instance Object_eq_dec : EqDecision Object.
Proof. solve_decision. Defined.

(** A shared or weak pointer: the control block and the object. *)
Record Pointer : Type := { block : nat; object : Object }.

#[global] Instance Pointer_eq_dec : EqDecision Pointer.
Proof. solve_decision. Defined.

Definition unusedCacheCapacity : nat := 5.

Record t : Type := mk {
  backendThread : bool;                    (* is the unique_ptr non-null *)
  cacheBackends : gmap Target.t Pointer;   (* weak pointers *)
  unusedCacheBackends : list Object;
  strongref : gmap nat nat;                (* strong count of each block *)
  objects : nat;                           (* Backends allocated so far *)
  blocks : nat                             (* control blocks allocated so far *)
}.

Definition set_backendThread (x : bool) (s : t) : t :=
  mk x (cacheBackends s) (unusedCacheBackends s) (strongref s) (objects s)
     (blocks s).
Definition set_cacheBackends (x : gmap Target.t Pointer) (s : t) : t :=
  mk (backendThread s) x (unusedCacheBackends s) (strongref s) (objects s)
     (blocks s).
Definition set_unusedCacheBackends (x : list Object) (s : t) : t :=
  mk (backendThread s) (cacheBackends s) x (strongref s) (objects s)
     (blocks s).
Definition set_strongref (x : gmap nat nat) (s : t) : t :=
  mk (backendThread s) (cacheBackends s) (unusedCacheBackends s) x (objects s)
     (blocks s).
Definition set_objects (x : nat) (s : t) : t :=
  mk (backendThread s) (cacheBackends s) (unusedCacheBackends s) (strongref s)
     x (blocks s).
Definition set_blocks (x : nat) (s : t) : t :=
  mk (backendThread s) (cacheBackends s) (unusedCacheBackends s) (strongref s)
     (objects s) x.

(** The statics before the first use. *)
Definition empty : t := mk false ∅ [] ∅ 0 0.

Inductive Effect : Type :=
    (* the thread is created, named, moved, given its post routine, started *)
  | StartThread
    (* new PropertyCacheBackend(target): moved to the thread, load queued *)
  | Construct (o : Object)
  | DeleteLater (o : Object)
    (* backendThread->quit(); wait(5000); reset() *)
  | StopThread.

Definition strong_count (s : t) (p : Pointer) : nat :=
  default 0 (strongref s !! block p).

(** [QWeakPointer::isNull]: no strong reference is left. *)
Definition isNull (s : t) (w : Pointer) : bool :=
  bool_decide (strong_count s w = 0).

(** [QWeakPointer::toStrongRef]: a new strong reference unless none is
    left. *)
Definition toStrongRef (w : Pointer) : M t Effect (option Pointer) :=
  n <- gets (λ s, strong_count s w) ;;
  if bool_decide (n = 0) then ret None
  else
    modify (λ s, set_strongref (<[block w := S n]> (strongref s)) s) ;;
    ret (Some w).

(** [QSharedPointer<PropertyCacheBackend> ref(o, &backendReleased)]: a new
    control block holding one strong reference. *)
Definition make_shared (o : Object) : M t Effect Pointer :=
  blk <- gets blocks ;;
  modify (set_blocks (S blk)) ;;
  modify (λ s, set_strongref (<[blk := 1]> (strongref s)) s) ;;
  ret {| block := blk; object := o |}.

(** [new PropertyCacheBackend(target)]: the constructor starts the worker
    thread when there is none. *)
Definition construct (target : Target.t) : M t Effect Object :=
  thread <- gets backendThread ;;
  when (negb thread) (modify (set_backendThread true) ;; tell StartThread) ;;
  addr <- gets objects ;;
  modify (set_objects (S addr)) ;;
  let o := {| address := addr; m_target := target |} in
  tell (Construct o) ;;
  ret o.

(** [PropertyCacheBackend::instance] *)
Definition instance (target : Target.t) : M t Effect Pointer :=
  backends <- gets cacheBackends ;;
  found <- match backends !! target with
           | Some w => toStrongRef w
           | None => ret None
           end ;;
  match found with
  | Some ref => ret ref
  | None =>
      unused <- gets unusedCacheBackends ;;
      match list_find (λ o, m_target o = target) unused with
      | Some (i, cachedBackend) =>
          modify (set_unusedCacheBackends (delete i unused)) ;;
          ref <- make_shared cachedBackend ;;
          modify (λ s, set_cacheBackends (<[target := ref]> (cacheBackends s)) s) ;;
          ret ref
      | None =>
          o <- construct target ;;
          ref <- make_shared o ;;
          modify (λ s, set_cacheBackends (<[target := ref]> (cacheBackends s)) s) ;;
          ret ref
      end
  end.

(** [while (size() >= unusedCacheCapacity) { last()->deleteLater();
    removeLast(); }]; each turn shortens the list, so as many turns as it
    is long are enough. *)
Fixpoint evict (turns : nat) : M t Effect unit :=
  match turns with
  | 0 => ret tt
  | S turns' =>
      unused <- gets unusedCacheBackends ;;
      if bool_decide (unusedCacheCapacity ≤ length unused) then
        match last unused with
        | Some o =>
            tell (DeleteLater o) ;;
            modify (set_unusedCacheBackends (take (length unused - 1) unused)) ;;
            evict turns'
        | None => ret tt
        end
      else ret tt
  end.

(** [backendReleased], the deleter of the shared pointers. *)
Definition backendReleased (backend : Object) : M t Effect unit :=
  backends <- gets cacheBackends ;;
  match backends !! m_target backend with
  | Some w =>
      null <- gets (λ s, isNull s w) ;;
      when null (modify (set_cacheBackends (delete (m_target backend) backends)))
  | None => ret tt
  end ;;
  unused <- gets unusedCacheBackends ;;
  evict (length unused) ;;
  modify (λ s, set_unusedCacheBackends (backend :: unusedCacheBackends s) s).

(** A strong reference goes away; the result tells whether it was the
    last, in which case the deleter is due. *)
Definition deref (p : Pointer) : M t Effect bool :=
  n <- gets (λ s, strong_count s p) ;;
  modify (λ s, set_strongref (<[block p := n - 1]> (strongref s)) s) ;;
  ret (bool_decide (n = 1)).

(** A strong reference goes away and the deleter runs at once. *)
Definition release (p : Pointer) : M t Effect unit :=
  last_one <- deref p ;;
  when last_one (backendReleased (object p)).

(** [test_backendsEmpty] *)
Definition test_backendsEmpty : M t Effect bool :=
  backends <- gets cacheBackends ;;
  ret (bool_decide (backends = ∅)).

(** [test_clearCache] *)
Definition test_clearCache : M t Effect unit :=
  unused <- gets unusedCacheBackends ;;
  for_each unused (λ o, tell (DeleteLater o)) ;;
  modify (set_unusedCacheBackends []).

(** [cleanupBackendThread] *)
Definition cleanupBackendThread : M t Effect unit :=
  unused <- gets unusedCacheBackends ;;
  for_each unused (λ o, tell (DeleteLater o)) ;;
  modify (set_unusedCacheBackends []) ;;
  tell StopThread ;;
  modify (set_backendThread false).

(** No strong reference to a Backend of [target] is registered: the entry
    of [cacheBackends] is missing or has expired. *)
Definition unreferenced (s : t) (target : Target.t) : bool :=
  match cacheBackends s !! target with
  | Some w => isNull s w
  | None => true
  end.

(** What can happen to the registry. *)
Inductive Step : Type :=
  | Instance (target : Target.t)
  | Deref (p : Pointer)
  | Released (backend : Object)
  | ClearCache
  | Cleanup.

Definition step (st : Step) : M t Effect unit :=
  match st with
  | Instance target => _ <- instance target ;; ret tt
  | Deref p => _ <- deref p ;; ret tt
  | Released backend => backendReleased backend
  | ClearCache => test_clearCache
  | Cleanup => cleanupBackendThread
  end.

Definition run (steps : list Step) : M t Effect unit := for_each steps step.

(** The Backends scheduled for deletion in a trace, in order. *)
Definition deleted (tr : list Effect) : list Object :=
  omap (λ e, match e with DeleteLater o => Some o | _ => None end) tr.

(** The Backends constructed in a trace, in order. *)
Definition constructed (tr : list Effect) : list Object :=
  omap (λ e, match e with Construct o => Some o | _ => None end) tr.

End BackendRegistry.

(** ** More concrete inputs *)

Module Scenario.

(** The error of a Backend whose service is not on the bus. *)
Definition service_unknown : QDBusError.t :=
  QDBusError.mk QDBusError.ServiceUnknown "The name is not activatable".

(** A Backend with its first GetAll in flight. *)
Definition loading_backend : PropertyCacheBackend.t :=
  state_of (PropertyCacheBackend.load
              (PropertyCacheBackend.new Examples.test_target)).

(** A Backend whose load failed with [service_unknown]. *)
Definition failed_backend : PropertyCacheBackend.t :=
  state_of (PropertyCacheBackend.loadReply 0
              (PropertyCacheBackend.ReplyError service_unknown)
              loading_backend).

(** The registry after one handle for the test target was made and its
    thread view let go of the Backend, the deleter not yet run. *)
Definition registered
  : BackendRegistry.Pointer * BackendRegistry.t * list BackendRegistry.Effect :=
  BackendRegistry.instance Examples.test_target BackendRegistry.empty.
Definition unreferenced_registry : BackendRegistry.t :=
  state_of (BackendRegistry.deref (value_of registered) (state_of registered)).
Definition test_backend : BackendRegistry.Object :=
  BackendRegistry.object (value_of registered).

(** Five Backends of other targets, as the persistence test makes them. *)
Definition other_backends : list BackendRegistry.Object :=
  (λ p, {| BackendRegistry.address := p.1;
           BackendRegistry.m_target :=
             Target.mk "client" "test.service" p.2 "test.service" |})
    <$> [(1, "/test/path/0"); (2, "/test/path/1"); (3, "/test/path/2");
         (4, "/test/path/3"); (5, "/test/path/4")].

End Scenario.

(** * Properties *)

(** ** The monad *)

Section monad_facts.
Context {S E : Type}.

Lemma for_each_frame {A} (l : list A) (body : A → M S E unit) (s : S)
    (out : A → list E) :
  (∀ x, x ∈ l → body x s = (tt, s, out x)) →
  for_each l body s = (tt, s, l ≫= out).
Proof.
  induction l as [|x l IH]; intros Hbody; [done|].
  cbn [for_each]. unfold bind at 1.
  rewrite Hbody by left.
  rewrite IH by (intros y Hy; apply Hbody; by right).
  done.
Qed.

Lemma bind_when_filter {A B} (c : A → bool) (g : A → B) (l : list A) :
  l ≫= (λ x, if c x then [g x] else []) = g <$> filter (λ x, c x = true) l.
Proof.
  induction l as [|x l IH]; [done|].
  cbn [mbind list_bind]. change (mbind ?f l) with (l ≫= f) in *. rewrite IH.
  destruct (c x) eqn:Hc.
  - rewrite filter_cons_True by done. done.
  - rewrite filter_cons_False by (rewrite Hc; done). done.
Qed.

Lemma run_bind {A B} (m : M S E A) (k : A → M S E B) (s : S) :
  bind m k s = (let '(a, s1, t1) := m s in
                let '(b, s2, t2) := k a s1 in (b, s2, t1 ++ t2)).
Proof. done. Qed.

Lemma run_gets {A} (f : S → A) (s : S) : gets (E:=E) f s = (f s, s, []).
Proof. done. Qed.

Lemma run_modify (f : S → S) (s : S) : modify (E:=E) f s = (tt, f s, []).
Proof. done. Qed.

Lemma run_tell (e : E) (s : S) : tell e s = (tt, s, [e]).
Proof. done. Qed.

Lemma state_of_bind {A B} (m : M S E A) (k : A → M S E B) (s : S) :
  state_of (bind m k s) = state_of (k (value_of (m s)) (state_of (m s))).
Proof.
  unfold bind, state_of, value_of. destruct (m s) as [[a s1] t1]. cbn [fst snd].
  by destruct (k a s1) as [[b s2] t2].
Qed.

Lemma trace_of_bind {A B} (m : M S E A) (k : A → M S E B) (s : S) :
  trace_of (bind m k s)
  = trace_of (m s) ++ trace_of (k (value_of (m s)) (state_of (m s))).
Proof.
  unfold bind, state_of, trace_of, value_of.
  destruct (m s) as [[a s1] t1]. cbn [fst snd].
  by destruct (k a s1) as [[b s2] t2].
Qed.

Lemma run_when (c : bool) (body : M S E unit) (s : S) (tr : list E) :
  body s = (tt, s, tr) → when c body s = (tt, s, if c then tr else []).
Proof. intros H. by destruct c. Qed.

End monad_facts.

(** One statement of a method body: split the sequence at its head and run
    the head on the current state. *)
Ltac run_step :=
  rewrite run_bind;
  first [ rewrite run_gets | rewrite run_modify | rewrite run_tell
        | erewrite run_when by reflexivity ];
  cbv beta iota zeta.

(** ** Map iteration *)

Lemma items_Permutation (m : QVariantMap) : items m ≡ₚ map_to_list m.
Proof. apply merge_sort_Permutation. Qed.

Lemma elem_of_items (m : QVariantMap) (k : QString) (v : QVariant) :
  (k, v) ∈ items m ↔ m !! k = Some v.
Proof. rewrite items_Permutation. apply elem_of_map_to_list. Qed.

Lemma NoDup_fst_items (m : QVariantMap) : NoDup (items m).*1.
Proof. rewrite items_Permutation. apply NoDup_fst_map_to_list. Qed.

Lemma items_empty : items ∅ = [].
Proof. unfold items. by rewrite map_to_list_empty. Qed.

Lemma list_to_map_items (m : QVariantMap) : list_to_map (items m) = m.
Proof.
  apply map_eq; intros k. apply option_eq; intros v.
  rewrite <- elem_of_list_to_map by apply NoDup_fst_items.
  apply elem_of_items.
Qed.

(** ** The thread view *)

Section thread_view.
Import PropertyCacheThreadData DeliveryContract.

Lemma reset_changed_loop (before : QVariantMap) (l : list (QString * QVariant))
    (d : t) :
  for_each l (λ it,
    when (match before !! it.1 with
          | None => true
          | Some old => bool_decide (old ≠ it.2)
          end)
      (emit (propertyChanged it.1 it.2))) d
  = (tt, d, (λ s, {| signal := s; seen := d |}) <$>
       ((λ it, propertyChanged it.1 it.2)
          <$> filter (λ it, before !! it.1 ≠ Some it.2) l)).
Proof.
  rewrite (for_each_frame _ _ _ (λ it,
    if (match before !! it.1 with
        | None => true
        | Some old => bool_decide (old ≠ it.2)
        end)
    then [{| signal := propertyChanged it.1 it.2; seen := d |}] else [])).
  2:{ intros it _. by destruct (match before !! it.1 with
                                | None => _ | Some _ => _ end). }
  rewrite (bind_when_filter _
    (λ it, {| signal := propertyChanged it.1 it.2; seen := d |})).
  rewrite <- list_fmap_compose. f_equal. f_equal.
  apply list_filter_iff. intros it.
  destruct (before !! it.1) as [old|]; [|naive_solver].
  rewrite bool_decide_eq_true. naive_solver.
Qed.

Lemma reset_removed_loop (l : list (QString * QVariant)) (d : t) :
  for_each l (λ it,
    props <- gets m_properties ;;
    when (negb (qcontains props it.1))
      (emit (propertyChanged it.1 Invalid))) d
  = (tt, d, (λ s, {| signal := s; seen := d |}) <$>
       ((λ it, propertyChanged it.1 Invalid)
          <$> filter (λ it, m_properties d !! it.1 = None) l)).
Proof.
  rewrite (for_each_frame _ _ _ (λ it,
    if negb (qcontains (m_properties d) it.1)
    then [{| signal := propertyChanged it.1 Invalid; seen := d |}] else [])).
  2:{ intros it _. unfold bind, gets.
      by destruct (negb (qcontains (m_properties d) it.1)). }
  rewrite (bind_when_filter _
    (λ it, {| signal := propertyChanged it.1 Invalid; seen := d |})).
  rewrite <- list_fmap_compose. f_equal. f_equal.
  apply list_filter_iff. intros it. unfold qcontains.
  rewrite negb_true_iff, bool_decide_eq_false, <- eq_None_not_Some. done.
Qed.

End thread_view.

Section reset_contract.
Import PropertyCacheThreadData DeliveryContract.

Lemma reset_run (old : t) (values : QVariantMap) (error : QDBusError.t) :
  reset values error old
  = (tt, post_reset old values error,
     (λ s, {| signal := s; seen := post_reset old values error |})
       <$> reset_signals old values error).
Proof.
  unfold reset, reset_signals.
  set (post := post_reset old values error).
  do 6 run_step.
  change (set_properties values (set_error error
            (set_available (negb (QDBusError.isValid error)) old))) with post.
  do 4 run_step.
  rewrite run_bind, run_gets. cbv beta iota zeta.
  rewrite run_bind, reset_changed_loop. cbv beta iota zeta.
  rewrite run_bind, reset_removed_loop. cbv beta iota zeta.
  do 2 run_step. erewrite run_when by reflexivity.
  subst post. cbn [post_reset m_available m_properties].
  f_equal. rewrite !fmap_app. cbn [app].
  repeat match goal with |- _ ++ _ = _ ++ _ => f_equal end.
  all: try by destruct (bool_decide _).
  - unfold isEmpty. repeat case_bool_decide; simpl; try done; tauto.
  - destruct (m_available old), (QDBusError.isValid error);
      case_bool_decide; cbn in *; try done; intuition congruence.
  - destruct (m_available old), (QDBusError.isValid error);
      case_bool_decide; cbn in *; try done; intuition congruence.
Qed.

(** C1. Delivering [reset(new_props, new_error)] to a thread view first
    replaces its whole state (properties, error, available = error absent)
    and then emits, in this order: availableChanged iff availability
    changed, errorChanged iff the error kind changed, propertiesReset iff
    the old or the new map is non-empty, propertyChanged(key, value) for
    every key that is new or whose value differs, propertyChanged(key,
    invalid) for every old key absent from the new map, lost iff it went
    from available to unavailable, ready iff it went the other way. Every
    emission happens in the post-update state, so what a handle's get,
    contains and getAll return to a listener during any of them is what they
    return after the delivery. *)
Theorem reset_delivery_contract (old : t) (new_props : QVariantMap)
    (new_error : QDBusError.t) :
  let post := post_reset old new_props new_error in
  let r := reset new_props new_error old in
  state_of r = post
  ∧ signal <$> trace_of r = reset_signals old new_props new_error
  ∧ ∀ e, e ∈ trace_of r →
      seen e = post
      ∧ ∀ (c : PropertyCache.t) (key : QString),
          PropertyCache.get (PropertyCache.with_data (seen e) c) key
            = PropertyCache.get (PropertyCache.with_data post c) key
          ∧ PropertyCache.contains (PropertyCache.with_data (seen e) c) key
            = PropertyCache.contains (PropertyCache.with_data post c) key
          ∧ PropertyCache.getAll (PropertyCache.with_data (seen e) c)
            = PropertyCache.getAll (PropertyCache.with_data post c).
Proof.
  intros post r. subst r. rewrite reset_run. fold post.
  unfold state_of, trace_of. cbn [fst snd].
  split; [done|]. split.
  - rewrite <- list_fmap_compose. apply list_fmap_id.
  - intros e He. apply list_elem_of_fmap in He as (s & -> & _).
    cbn [seen]. done.
Qed.

End reset_contract.

(** ** The Backend *)

Section backend.
Import PropertyCacheBackend DeliveryContract.

Lemma propertiesChanged_loop_run (its : list (QString * QVariant))
    (values : QVariantMap) (b : t) :
  NoDup its.*1 →
  ∃ props' values',
    propertiesChanged_loop its values b = (values', set_properties props' b, [])
    ∧ (∀ k, props' !! k =
            match (list_to_map its : QVariantMap) !! k with
            | Some v => Some v
            | None => m_properties b !! k
            end)
    ∧ (∀ k, values' !! k =
            match (list_to_map its : QVariantMap) !! k with
            | Some v => if decide (m_properties b !! k = Some v) then None
                        else values !! k
            | None => values !! k
            end).
Proof.
  revert values b. induction its as [|[k0 v0] rest IH]; intros values b Hnd.
  - exists (m_properties b), values. split; [by destruct b|]. done.
  - rewrite fmap_cons in Hnd. apply NoDup_cons in Hnd as [Hk0 Hnd].
    cbn [fst] in Hk0.
    assert ((list_to_map rest : QVariantMap) !! k0 = None) as Hrest
      by by apply not_elem_of_list_to_map_1.
    cbn [propertiesChanged_loop]. rewrite run_bind, run_gets.
    cbv beta iota zeta. rewrite list_to_map_cons.
    assert (∃ props' values',
      (modify (set_properties (<[k0:=v0]> (m_properties b)));;
       propertiesChanged_loop rest values) b
        = (values', set_properties props' b, [])
      ∧ (∀ k, props' !! k =
            match (<[k0:=v0]> (list_to_map rest) : QVariantMap) !! k with
            | Some v => Some v
            | None => m_properties b !! k
            end)
      ∧ (m_properties b !! k0 ≠ Some v0 →
         ∀ k, values' !! k =
            match (<[k0:=v0]> (list_to_map rest) : QVariantMap) !! k with
            | Some v => if decide (m_properties b !! k = Some v) then None
                        else values !! k
            | None => values !! k
            end)) as Hkeep.
    { rewrite run_bind, run_modify. cbv beta iota zeta.
      destruct (IH values (set_properties (<[k0:=v0]> (m_properties b)) b) Hnd)
        as (p' & v' & Hrun & Hp & Hv).
      exists p', v'. rewrite Hrun. split; [done|].
      cbn [m_properties set_properties] in Hp, Hv. split.
      - intros k. rewrite Hp. destruct (decide (k = k0)) as [->|Hne].
        + by rewrite Hrest, !lookup_insert_eq.
        + by rewrite !(lookup_insert_ne _ k0 k) by done.
      - intros Hdiff k. rewrite Hv. destruct (decide (k = k0)) as [->|Hne].
        + rewrite Hrest, lookup_insert_eq. by rewrite decide_False.
        + by rewrite !(lookup_insert_ne _ k0 k) by done. }
    destruct (m_properties b !! k0) as [cached|] eqn:Hcached.
    + case_bool_decide as Hc.
      * destruct Hkeep as (p' & v' & Hrun & Hp & Hv).
        exists p', v'. rewrite Hrun. split; [done|]. split; [done|].
        apply Hv. congruence.
      * assert (cached = v0) as -> by (by destruct (decide (cached = v0)); [|]).
        destruct (IH (delete k0 values) b Hnd) as (p' & v' & Hrun & Hp & Hv).
        exists p', v'. rewrite Hrun. split; [done|]. split.
        -- intros k. rewrite Hp. destruct (decide (k = k0)) as [->|Hne].
           ++ by rewrite Hrest, lookup_insert_eq.
           ++ by rewrite (lookup_insert_ne _ k0 k) by done.
        -- intros k. rewrite Hv. destruct (decide (k = k0)) as [->|Hne].
           ++ rewrite Hrest, lookup_insert_eq, lookup_delete_eq.
              by rewrite decide_True.
           ++ rewrite (lookup_insert_ne _ k0 k) by done.
              by rewrite (lookup_delete_ne _ k0 k) by done.
    + destruct Hkeep as (p' & v' & Hrun & Hp & Hv).
      exists p', v'. rewrite Hrun. split; [done|]. split; [done|].
      apply Hv. congruence.
Qed.

Lemma filtered_delta_lookup (cached changed : QVariantMap) (k : QString) :
  filtered_delta cached changed !! k =
  match changed !! k with
  | Some v => if decide (cached !! k = Some v) then None else Some v
  | None => None
  end.
Proof.
  unfold filtered_delta. apply option_eq; intros v.
  rewrite map_lookup_filter_Some. cbn [fst snd].
  destruct (changed !! k) as [v'|]; [|by intuition].
  destruct (decide (cached !! k = Some v')) as [Heq|Hne]; split.
  - intros [[= ->] Hdiff]. by destruct Hdiff.
  - done.
  - by intros [-> _].
  - intros [= ->]. done.
Qed.

Lemma propertiesChanged_loop_items (values : QVariantMap) (b : t) :
  propertiesChanged_loop (items values) values b
  = (filtered_delta (m_properties b) values,
     set_properties (filtered_delta (m_properties b) values ∪ m_properties b) b,
     []).
Proof.
  destruct (propertiesChanged_loop_run (items values) values b
              (NoDup_fst_items values)) as (p' & v' & -> & Hp & Hv).
  rewrite list_to_map_items in Hp, Hv.
  assert (v' = filtered_delta (m_properties b) values) as ->.
  { apply map_eq; intros k. rewrite Hv, filtered_delta_lookup.
    destruct (values !! k) as [v|] eqn:Hk; [|done].
    by destruct (decide (m_properties b !! k = Some v)). }
  assert (p' = filtered_delta (m_properties b) values ∪ m_properties b) as ->;
    [|done].
  apply map_eq; intros k. rewrite Hp, lookup_union, filtered_delta_lookup.
  destruct (values !! k) as [v|] eqn:Hk.
  - destruct (decide (m_properties b !! k = Some v)) as [->|]; [done|].
    by destruct (m_properties b !! k).
  - by destruct (m_properties b !! k).
Qed.

Lemma load_run (b : t) :
  m_pendingLoad b = None →
  load b
  = (tt,
     mk (m_target b) (m_properties b) (m_error b) (m_available b) true
        (Some (allocated b)) (S (allocated b)),
     (if m_watcher b then []
      else [WatchServiceOwner (Target.bus (m_target b))
              (Target.service (m_target b));
            ConnectSignal (Target.bus (m_target b))
              (Target.service (m_target b)) (Target.path (m_target b))
              k_property_interface k_properties_changed_signal_name
              [Target.interface (m_target b)]])
     ++ [AsyncCall (Target.bus (m_target b))
           (createMethodCall (propertiesTarget b) "GetAll"
              [ArgString (Target.interface (m_target b))])
           (allocated b)]).
Proof.
  intros Hpending. unfold load. run_step. rewrite Hpending. run_step.
  destruct b as [tg props err av w pl al]; cbn in *; subst pl.
  by destruct w.
Qed.

Lemma load_pending (b : t) (w : Watcher) :
  m_pendingLoad b = Some w → load b = (tt, b, []).
Proof. intros Hpending. unfold load. run_step. by rewrite Hpending. Qed.

Lemma doReset_run (properties : QVariantMap) (error : QDBusError.t) (b : t) :
  doReset properties error b
  = (tt,
     mk (m_target b) properties error (negb (QDBusError.isValid error))
        (m_watcher b) (m_pendingLoad b) (allocated b),
     [Emit (reset properties error)]).
Proof. done. Qed.

Lemma propertiesChanged_run (interface : QString) (changed : QVariantMap)
    (b : t) :
  propertiesChanged interface changed b =
  match m_pendingLoad b with
  | Some _ => (tt, b, [])
  | None =>
      if m_available b then
        let delta := filtered_delta (m_properties b) changed in
        (tt, set_properties (delta ∪ m_properties b) b,
         [Emit (changeProperties delta)])
      else load b
  end.
Proof.
  unfold propertiesChanged. run_step.
  destruct (m_pendingLoad b) as [w|]; [done|]. run_step.
  destruct (m_available b); cbn [negb];
    [|by destruct (load b) as [[[] ?] ?]].
  rewrite run_bind, propertiesChanged_loop_items. cbv beta iota zeta.
  by rewrite run_tell.
Qed.

End backend.

Section backend_claims.
Import PropertyCacheBackend DeliveryContract Contract.

(** C2, as the code has it. On [PropertiesChanged(changed)] the Backend
    drops the signal when a GetAll is pending (no state change, no effect);
    else, when it is unavailable, discards the payload and runs [load];
    else writes the entries of the filtered delta into its property map and
    emits [changeProperties] with that filtered delta, whether or not the
    delta is empty. The filtered delta holds exactly the entries of the
    payload whose value is not the cached one. *)
Theorem propertiesChanged_behaviour (interface : QString)
    (changed : QVariantMap) (b : t) :
  let delta := filtered_delta (m_properties b) changed in
  propertiesChanged interface changed b
  = match m_pendingLoad b with
    | Some _ => (tt, b, [])
    | None =>
        if m_available b then
          (tt, set_properties (delta ∪ m_properties b) b,
           [Emit (changeProperties delta)])
        else load b
    end
  ∧ ∀ key value,
      delta !! key = Some value
      ↔ changed !! key = Some value ∧ m_properties b !! key ≠ Some value.
Proof.
  cbv zeta. split; [apply propertiesChanged_run|].
  intros key value. rewrite filtered_delta_lookup.
  destruct (changed !! key) as [v|]; [|by intuition].
  destruct (decide (m_properties b !! key = Some v)); split.
  - done.
  - intros [[= ->] ?]. done.
  - intros [= ->]. done.
  - by intros [-> _].
Qed.

(** C2 as stated fails: a Backend that is available, has no GetAll pending
    and caches [str = "one"] receives [PropertiesChanged {str: "one"}]; the
    filtered delta is empty and [changeProperties] is emitted all the same. *)
Lemma propertiesChanged_emits_empty_delta :
  m_pendingLoad Examples.loaded_backend = None
  ∧ m_available Examples.loaded_backend = true
  ∧ filtered_delta (m_properties Examples.loaded_backend) Examples.str_one = ∅
  ∧ signals (trace_of (propertiesChanged "test.service" Examples.str_one
                         Examples.loaded_backend))
    = [changeProperties ∅].
Proof. by vm_compute. Qed.

Lemma isValid_spec (tg : Target.t) :
  Target.isValid tg = true
  ↔ Target.service tg ≠ "" ∧ Target.path tg ≠ "" ∧ Target.interface tg ≠ "".
Proof.
  unfold Target.isValid, Target.qstring_isEmpty.
  rewrite !andb_true_iff, !negb_true_iff, !bool_decide_eq_false. tauto.
Qed.

(** C3, as the code has it. [Target::isValid] holds exactly when service,
    path and interface are all non-empty, and [load] does not consult it:
    on a Backend of any target, valid or not, with no GetAll pending, [load]
    dispatches exactly one call, [GetAll(interface)] on
    org.freedesktop.DBus.Properties at the target's service and path, and
    records it as the pending load. *)
Theorem load_dispatches_GetAll (b : t) :
  m_pendingLoad b = None →
  (Target.isValid (m_target b) = true
   ↔ Target.service (m_target b) ≠ "" ∧ Target.path (m_target b) ≠ ""
     ∧ Target.interface (m_target b) ≠ "")
  ∧ calls (trace_of (load b))
    = [{| msg_service := Target.service (m_target b);
          msg_path := Target.path (m_target b);
          msg_interface := "org.freedesktop.DBus.Properties";
          msg_member := "GetAll";
          msg_arguments := [VString (Target.interface (m_target b))] |}]
  ∧ m_pendingLoad (state_of (load b)) = Some (allocated b).
Proof.
  intros Hpending. split; [apply isValid_spec|].
  rewrite load_run by done. unfold state_of, trace_of. cbn [fst snd].
  split; [|done]. by destruct (m_watcher b).
Qed.

(** The statement above at the Backend made for a target with an empty
    service name. *)
Lemma load_dispatches_GetAll_witness :
  Target.isValid Examples.invalid_target = false
  ∧ calls (trace_of (load (new Examples.invalid_target)))
    = [{| msg_service := "";
          msg_path := "/test/service";
          msg_interface := "org.freedesktop.DBus.Properties";
          msg_member := "GetAll";
          msg_arguments := [VString "test.service"] |}].
Proof.
  split; [reflexivity|].
  exact (proj1 (proj2 (load_dispatches_GetAll (new Examples.invalid_target)
                         eq_refl))).
Defined.

(** C3 as stated fails: the Backend made for a target whose service name is
    empty runs its queued [load] and a GetAll goes out for that target. *)
Lemma invalid_target_is_loaded :
  Target.isValid Examples.invalid_target = false
  ∧ trace_of (handle Load (new Examples.invalid_target))
    = [WatchServiceOwner "client" "";
       ConnectSignal "client" "" "/test/service"
         "org.freedesktop.DBus.Properties" "PropertiesChanged" ["test.service"];
       AsyncCall "client"
         {| msg_service := "";
            msg_path := "/test/service";
            msg_interface := "org.freedesktop.DBus.Properties";
            msg_member := "GetAll";
            msg_arguments := [VString "test.service"] |} 0].
Proof. split; reflexivity. Qed.

Lemma handle_preserves_invariants (ev : Event) (b : t) :
  B1 b ∧ B2 b → B1 (state_of (handle ev b)) ∧ B2 (state_of (handle ev b)).
Proof.
  intros [H1 H2]. destruct ev as [|w reply|service oldOwner newOwner|i values];
    cbn [handle].
  - destruct (m_pendingLoad b) as [w|] eqn:Hp.
    + by rewrite (load_pending b w).
    + by rewrite load_run.
  - unfold loadReply. run_step. run_step. case_bool_decide; [done|].
    run_step. destruct reply as [error|value].
    + unfold B1, B2, state_of.
      destruct (bool_decide (QDBusError.type error = QDBusError.ServiceUnknown));
        cbn; by destruct (QDBusError.isValid error).
    + done.
  - unfold serviceOwnerChanged. run_step.
    destruct (Target.qstring_isEmpty newOwner).
    + by destruct (m_pendingLoad b).
    + destruct (m_pendingLoad b); by destruct b.
  - rewrite propertiesChanged_run.
    destruct (m_pendingLoad b) as [w|] eqn:Hp; [done|].
    destruct (m_available b) eqn:Hav.
    + unfold B1, B2, state_of. cbn. rewrite Hav. split; [by auto|done].
    + by rewrite load_run.
Qed.

Lemma run_preserves_invariants (evs : list Event) (b : t) :
  B1 b ∧ B2 b → B1 (state_of (run evs b)) ∧ B2 (state_of (run evs b)).
Proof.
  revert b. induction evs as [|ev evs IH]; intros b Hb; [done|].
  unfold run in *. cbn [for_each]. rewrite state_of_bind.
  apply IH. by apply handle_preserves_invariants.
Qed.

(** Every [reset] the Backend emits passes the assertion that opens
    [PropertyCacheThreadData::reset]. *)
Lemma backend_resets_pass_assertion (ev : Event) (b : t)
    (values : QVariantMap) (error : QDBusError.t) :
  reset values error ∈ signals (trace_of (handle ev b)) →
  PropertyCacheThreadData.reset_asserts values error = true.
Proof.
  destruct ev as [|w reply|service oldOwner newOwner|i vs]; cbn [handle].
  - destruct (m_pendingLoad b) as [w|] eqn:Hp.
    + rewrite (load_pending b w) by done. by intros ?%elem_of_nil.
    + rewrite load_run by done. unfold trace_of. cbn [snd].
      destruct (m_watcher b); by intros ?%elem_of_nil.
  - unfold loadReply. run_step. run_step. case_bool_decide.
    + by intros ?%elem_of_nil.
    + run_step. destruct reply as [e|value].
      * destruct (bool_decide (QDBusError.type e = QDBusError.ServiceUnknown));
          cbn; intros [= -> ->]%list_elem_of_singleton;
          unfold PropertyCacheThreadData.reset_asserts;
          apply orb_true_r.
      * cbn. by intros [= -> ->]%list_elem_of_singleton.
  - unfold serviceOwnerChanged. run_step.
    destruct (Target.qstring_isEmpty newOwner).
    + destruct (m_pendingLoad b); cbn;
        by intros [= -> ->]%list_elem_of_singleton.
    + destruct (m_pendingLoad b); cbn; by intros ?%elem_of_nil.
  - rewrite propertiesChanged_run.
    destruct (m_pendingLoad b) as [w|] eqn:Hp; [by intros ?%elem_of_nil|].
    destruct (m_available b).
    + cbn. by intros [=]%list_elem_of_singleton.
    + rewrite load_run by done. unfold trace_of. cbn [snd].
      destruct (m_watcher b); by intros ?%elem_of_nil.
Qed.

(** C4. After every sequence of Backend transitions (calls of load, load
    replies, service-owner changes, PropertiesChanged signals) from the
    state the constructor leaves, B1 and B2 hold: available implies error
    absent, and available = false implies the property map is empty. *)
Theorem backend_invariants (target : Target.t) (evs : list Event) :
  B1 (state_of (run evs (new target))) ∧ B2 (state_of (run evs (new target))).
Proof. by apply run_preserves_invariants. Qed.

End backend_claims.

(** ** The handle *)

Section handle.
Import PropertyCacheThreadData PropertyCache Contract.

Lemma bind_singleton {A B} (g : A → B) (l : list A) :
  l ≫= (λ x, [g x]) = g <$> l.
Proof. induction l as [|x l IH]; [done|]. cbn. by f_equal. Qed.

Lemma initialize_private_done (c : PropertyCache.t) :
  initialized c = true → initialize_private c = (tt, c, []).
Proof. intros H. unfold initialize_private. run_step. by rewrite H. Qed.

Lemma initialize_private_first (c : PropertyCache.t) :
  initialized c = false →
  initialize_private c
  = (tt, after_initialize c,
     (λ s, Emit s (after_initialize c)) <$> replay_signals (data c)).
Proof.
  intros H. unfold initialize_private. run_step. rewrite H.
  do 7 run_step.
  assert (set_initialized true
            (connect PropertiesReset (connect PropertyChanged (connect Lost
               (connect Ready (connect ErrorChanged
                  (connect AvailableChanged c))))))
          = after_initialize c) as ->.
  { unfold after_initialize, set_initialized, connect. cbn. f_equal.
    by rewrite <- !(assoc_L (++)). }
  run_step. cbn [data after_initialize].
  rewrite run_bind. erewrite run_when by reflexivity. cbv beta iota zeta.
  run_step. cbn [data after_initialize]. unfold replay_signals.
  destruct (m_available (data c)); cbn [negb].
  - unfold emit. rewrite run_bind. unfold tell_at at 1. cbv beta iota zeta.
    rewrite run_bind. unfold tell_at at 1. cbv beta iota zeta.
    rewrite run_bind.
    rewrite (for_each_frame _ _ _ (λ it,
      [Emit (propertyChanged it.1 it.2) (after_initialize c)])) by done.
    cbv beta iota zeta. unfold tell_at. rewrite bind_singleton.
    f_equal. destruct (QDBusError.isValid (m_error (data c)));
      cbn [app]; rewrite ?fmap_cons, ?fmap_app, <- ?list_fmap_compose; done.
  - unfold ret. f_equal.
    destruct (QDBusError.isValid (m_error (data c))); done.
Qed.

Lemma emitted_fmap_Emit (seen : PropertyCache.t) (l : list Signal) :
  emitted ((λ s, Emit s seen) <$> l) = l.
Proof. induction l as [|x l IH]; [done|]. cbn. by f_equal. Qed.

Lemma replay_signals_nil (d : PropertyCacheThreadData.t) :
  replay_signals d = []
  ↔ m_available d || QDBusError.isValid (m_error d) = false.
Proof.
  unfold replay_signals.
  destruct (m_available d), (QDBusError.isValid (m_error d)); by cbn.
Qed.

Lemma initialize_done (c : PropertyCache.t) :
  initialized c = true →
  initialize c
  = (m_available (data c) || QDBusError.isValid (m_error (data c)), c, []).
Proof.
  intros H. unfold initialize.
  rewrite run_bind, (initialize_private_done c H). cbv beta iota zeta.
  by run_step.
Qed.

Lemma initialize_first (c : PropertyCache.t) :
  initialized c = false →
  initialize c
  = (m_available (data c) || QDBusError.isValid (m_error (data c)),
     after_initialize c,
     (λ s, Emit s (after_initialize c)) <$> replay_signals (data c)).
Proof.
  intros H. unfold initialize.
  rewrite run_bind, (initialize_private_first c H). cbv beta iota zeta.
  run_step. unfold ret. by rewrite !app_nil_r.
Qed.

Lemma initialize_times_done (n : nat) (c : PropertyCache.t) :
  initialized c = true → initialize_times n c = (tt, c, []).
Proof.
  intros H. unfold initialize_times. induction n as [|n IH]; [done|].
  cbn [replicate for_each]. rewrite run_bind, run_bind.
  rewrite (initialize_done c H). cbv beta iota zeta. unfold ret at 1.
  by rewrite IH.
Qed.

End handle.

Section handle_claims.
Import PropertyCacheThreadData PropertyCache Contract.

(** C5. [PropertyCache::initialize] returns available-or-error-present of
    the thread view. On a handle that is already initialized it emits
    nothing and changes nothing. On a handle that is not, it returns true
    exactly when it emitted something, and what it emits is the replay of
    the view's state: it returns false, with nothing emitted, exactly when
    the view is still loading. *)
Theorem initialize_result (c : PropertyCache.t) :
  let r := initialize c in
  value_of r = m_available (data c) || QDBusError.isValid (m_error (data c))
  ∧ if initialized c
    then trace_of r = [] ∧ state_of r = c
    else (value_of r = true ↔ emitted (trace_of r) ≠ [])
         ∧ (value_of r = false ↔ trace_of r = [])
         ∧ emitted (trace_of r) = replay_signals (data c).
Proof.
  cbv zeta. destruct (initialized c) eqn:Hinit.
  - by rewrite initialize_done.
  - rewrite initialize_first by done.
    unfold value_of, trace_of. cbn [fst snd].
    rewrite emitted_fmap_Emit. split; [done|].
    pose proof (replay_signals_nil (data c)) as Hnil. split; [|split; [|done]].
    + destruct (m_available (data c) || QDBusError.isValid (m_error (data c))).
      * split; [|done]. intros _ Hemp. by apply Hnil in Hemp.
      * split; [done|]. intros Hne. destruct Hne. by apply Hnil.
    + rewrite <- Hnil. split.
      * by intros ->.
      * by intros ?%fmap_nil_inv.
Qed.

(** C6. On a handle on which initialize has not run, whatever the shared
    thread view holds: get returns an invalid value for every key, contains
    returns false for every key, isAvailable returns false, getAll returns
    the empty map and error returns the absent error. *)
Theorem uninitialized_reads (d : PropertyCacheThreadData.t)
    (conns : list SignalKind) (key : QString) :
  let c := PropertyCache.mk d false conns in
  get c key = Invalid
  ∧ isValidVariant (get c key) = false
  ∧ contains c key = false
  ∧ isAvailable c = false
  ∧ getAll c = ∅
  ∧ error c = QDBusError.none
  ∧ QDBusError.isValid (error c) = false.
Proof. done. Qed.

(** C7, as the code has it. The constructor emits no signal. When the
    thread view already holds state (available or failed) it leaves the
    handle uninitialized and queues initialize on the event loop; when the
    view holds none it runs initialize inline, which makes the six
    connections, sets the flag and emits nothing. *)
Theorem construction_behaviour (d : PropertyCacheThreadData.t) :
  emitted (PropertyCache.new d).2 = []
  ∧ if m_available d || QDBusError.isValid (m_error d)
    then PropertyCache.new d
         = (PropertyCache.mk d false [], [InvokeQueuedInitialize])
    else PropertyCache.new d
         = (PropertyCache.mk d true handle_connections, []).
Proof.
  unfold PropertyCache.new, construct. rewrite run_bind, run_gets.
  cbv beta iota zeta. cbn [data].
  destruct (m_available d) eqn:Hav; cbn [negb andb orb]; [done|].
  destruct (QDBusError.isValid (m_error d)) eqn:Herr; cbn [negb]; [done|].
  rewrite initialize_private_first by done.
  unfold replay_signals, state_of, trace_of. cbn [data fst snd].
  rewrite Hav, Herr. done.
Qed.

(** C7 as stated fails: constructed on a thread view that is still loading,
    the handle comes out initialized and connected, and nothing is queued. *)
Lemma construction_initializes_inline :
  PropertyCache.new Examples.loading_view
  = (PropertyCache.mk Examples.loading_view true handle_connections, [])
  ∧ InvokeQueuedInitialize ∉ (PropertyCache.new Examples.loading_view).2.
Proof. split; [reflexivity|]. by intros ?%elem_of_nil. Qed.

(** C9. [PropertyCache::set] leaves the handle and its thread view
    (property map, available flag, error) as they were; its only effect is
    one asynchronous [Set(interface, property, variant value)] call on
    org.freedesktop.DBus.Properties at the target's service and path. The
    completion of that call changes nothing and emits nothing either: a
    failure reply is logged at warning, a success is silent. *)
Theorem set_leaves_cache_unchanged (c : PropertyCache.t) (property : QString)
    (value : QVariant) :
  let target := m_target (data c) in
  state_of (set property value c) = c
  ∧ trace_of (set property value c)
    = [AsyncCall (Target.bus target)
         {| msg_service := Target.service target;
            msg_path := Target.path target;
            msg_interface := "org.freedesktop.DBus.Properties";
            msg_member := "Set";
            msg_arguments :=
              [VString (Target.interface target); VString property;
               match value with
               | VDBusVariant v => VDBusVariant v
               | _ => VDBusVariant value
               end] |}]
  ∧ ∀ reply : option QDBusError.t,
      state_of (set_finished property reply c) = c
      ∧ emitted (trace_of (set_finished property reply c)) = []
      ∧ trace_of (set_finished property reply c)
        = match reply with
          | Some _ => [Log Warning "failed to set property"]
          | None => []
          end.
Proof.
  cbv zeta. split; [done|]. split.
  - unfold set. run_step. rewrite run_tell. unfold trace_of. cbn [snd app].
    by destruct value.
  - by intros [e|].
Qed.

(** C10. [initialize] is idempotent. Any number of calls in a row leaves
    the handle as the first call left it and emits what the first call
    emitted; the six connections are made by the first call that finds the
    handle uninitialized and by no other; and a later call, whatever the
    thread view holds by then, changes nothing, emits nothing and returns
    available-or-error-present of that view. *)
Theorem initialize_idempotent (c : PropertyCache.t) (n : nat)
    (later : PropertyCacheThreadData.t) :
  let first := initialize c in
  let again := initialize (with_data later (state_of first)) in
  state_of (initialize_times (S n) c) = state_of first
  ∧ trace_of (initialize_times (S n) c) = trace_of first
  ∧ initialized (state_of first) = true
  ∧ connections (state_of first)
    = connections c ++ (if initialized c then [] else handle_connections)
  ∧ state_of again = with_data later (state_of first)
  ∧ trace_of again = []
  ∧ value_of again
    = m_available later || QDBusError.isValid (m_error later).
Proof.
  cbv zeta. unfold initialize_times. cbn [replicate for_each].
  fold (initialize_times n).
  assert (initialized (state_of (initialize c)) = true) as Hinit.
  { destruct (initialized c) eqn:Hc.
    - by rewrite initialize_done.
    - by rewrite initialize_first. }
  rewrite state_of_bind, trace_of_bind, state_of_bind, trace_of_bind.
  cbn [ret state_of trace_of value_of fst snd].
  change (initialize c).1.2 with (state_of (initialize c)).
  rewrite (initialize_times_done n _ Hinit). cbn [fst snd].
  rewrite !app_nil_r.
  rewrite (initialize_done (with_data later _)) by done.
  repeat split; try done.
  destruct (initialized c) eqn:Hc.
  - rewrite initialize_done by done. cbn. by rewrite app_nil_r.
  - by rewrite initialize_first.
Qed.

End handle_claims.

(** ** Redundant updates *)

Section redundant_updates.
Import PropertyCacheThreadData DeliveryContract Contract.









End redundant_updates.

Section redundant_updates_witness.
Import PropertyCacheThreadData Contract.


End redundant_updates_witness.

(** ** The change path of the thread view *)

Section change_path.
Import PropertyCacheThreadData.

Lemma merge_loop_run (l : list (QString * QVariant)) (d : t) :
  NoDup l.*1 →
  for_each (E:=Emission) l (λ it,
    modify (λ d, set_properties (<[it.1 := it.2]> (m_properties d)) d)) d
  = (tt, set_properties (list_to_map l ∪ m_properties d) d, []).
Proof.
  revert d. induction l as [|[k v] l IH]; intros d Hnd.
  - cbn. rewrite (left_id_L ∅ (∪)). by destruct d.
  - rewrite fmap_cons in Hnd. apply NoDup_cons in Hnd as [Hk Hnd].
    cbn [for_each fst snd]. rewrite run_bind, run_modify.
    cbv beta iota zeta. rewrite IH by done.
    cbn [set_properties m_properties m_target m_error m_available app].
    rewrite list_to_map_cons, <- insert_union_l, insert_union_r; [done|].
    by apply not_elem_of_list_to_map_1.
Qed.

Lemma changeProperties_run (values : QVariantMap) (d : t) :
  changeProperties values d
  = (tt, set_properties (values ∪ m_properties d) d,
     (λ it, {| signal := propertyChanged it.1 it.2;
               seen := set_properties (values ∪ m_properties d) d |})
       <$> items values).
Proof.
  unfold changeProperties. rewrite run_bind.
  rewrite merge_loop_run by apply NoDup_fst_items.
  rewrite list_to_map_items. cbv beta iota zeta.
  rewrite (for_each_frame _ _ _ (λ it,
    [{| signal := propertyChanged it.1 it.2;
        seen := set_properties (values ∪ m_properties d) d |}])) by done.
  by rewrite bind_singleton.
Qed.

(** X1. Delivering [changeProperties(delta)] merges the whole delta into
    the view before anything is emitted: afterwards every entry of the delta
    is in the map, every other key is as before, and target, error and
    availability are untouched. The view then emits one
    propertyChanged(key, value) per entry of the delta, in key order, each
    of them seen in the fully merged state. *)
Theorem changeProperties_contract (delta : QVariantMap) (d : t) :
  let r := changeProperties delta d in
  m_properties (state_of r) = delta ∪ m_properties d
  ∧ (∀ key value, delta !! key = Some value →
       m_properties (state_of r) !! key = Some value)
  ∧ (∀ key, delta !! key = None →
       m_properties (state_of r) !! key = m_properties d !! key)
  ∧ m_target (state_of r) = m_target d
  ∧ m_error (state_of r) = m_error d
  ∧ m_available (state_of r) = m_available d
  ∧ signal <$> trace_of r = (λ it, propertyChanged it.1 it.2) <$> items delta
  ∧ Forall (λ e, seen e = state_of r) (trace_of r).
Proof.
  cbv zeta. rewrite changeProperties_run. unfold state_of, trace_of.
  cbn [fst snd set_properties m_properties m_target m_error m_available].
  repeat split.
  - intros key value Hk. by apply lookup_union_Some_l.
  - intros key Hk. by rewrite lookup_union_r.
  - by rewrite <- list_fmap_compose.
  - apply Forall_fmap, Forall_forall. by intros.
Qed.

End change_path.

Section listener.
Import PropertyCacheThreadData DeliveryContract Pipeline.

Lemma reset_payload_agrees (values : QVariantMap) (error : QDBusError.t)
    (d : t) (conns : list SignalKind) :
  Forall (λ s, agrees (PropertyCache.mk (post_reset d values error) true conns) s)
    (reset_signals d values error).
Proof.
  unfold reset_signals. cbv zeta. rewrite !Forall_app. repeat split.
  - case_bool_decide; by repeat constructor.
  - case_bool_decide; by repeat constructor.
  - case_bool_decide; by repeat constructor.
  - apply Forall_fmap, Forall_forall. intros [k v] Hin.
    apply list_elem_of_filter in Hin as [_ Hin%elem_of_items].
    cbn. unfold PropertyCache.get, qvalue. cbn. by rewrite Hin.
  - apply Forall_fmap, Forall_forall. intros [k v] Hin.
    apply list_elem_of_filter in Hin as [Hnone _].
    cbn in *. unfold PropertyCache.get, qvalue. cbn. by rewrite Hnone.
  - case_bool_decide as Hc; [|done]. destruct Hc as [_ Hc].
    repeat constructor. cbn. unfold PropertyCache.isAvailable. cbn. done.
  - case_bool_decide as Hc; [|done]. destruct Hc as [_ Hc].
    repeat constructor. cbn. unfold PropertyCache.isAvailable. cbn. done.
Qed.

(** X2. While a thread view emits the signals of a delivered [reset] or
    [changeProperties], the payload of every signal is what an initialized
    handle on that view returns at that moment: get(key) is the value of
    propertyChanged(key, value) (invalid for a removed key), getAll() the
    map of propertiesReset, isAvailable() the flag of availableChanged
    (true at ready, false at lost) and error() the error of errorChanged. *)
Theorem delivered_payload_agrees_with_accessors
    (s : PropertyCacheBackend.Signal) (d : t) (conns : list SignalKind) :
  Forall (λ e, agrees (PropertyCache.mk (seen e) true conns) (signal e))
    (trace_of (deliver s d)).
Proof.
  destruct s as [values error|values]; cbn [deliver].
  - rewrite reset_run. unfold trace_of. cbn [snd].
    apply Forall_fmap. cbn [signal seen]. apply reset_payload_agrees.
  - rewrite changeProperties_run. unfold trace_of. cbn [snd].
    apply Forall_fmap, Forall_forall. intros [k v] Hin%elem_of_items.
    cbn. unfold PropertyCache.get, qvalue. cbn.
    by rewrite (lookup_union_Some_l _ _ _ _ Hin).
Qed.


End listener.

Section handle_pipeline.
Import PropertyCacheThreadData PropertyCache Contract Pipeline.

Lemma replay_agrees (c : PropertyCache.t) :
  Forall (agrees (after_initialize c)) (replay_signals (data c)).
Proof.
  unfold replay_signals. cbv zeta. rewrite Forall_app. split.
  - destruct (QDBusError.isValid (m_error (data c))); by repeat constructor.
  - destruct (m_available (data c)) eqn:Hav; [|done].
    rewrite !Forall_app. repeat split.
    + repeat constructor; cbn; unfold isAvailable; cbn; by rewrite ?Hav.
    + apply Forall_fmap, Forall_forall. intros [k v] Hin%elem_of_items.
      cbn. unfold get, qvalue. cbn. by rewrite Hin.
    + repeat constructor; cbn; unfold isAvailable; cbn; by rewrite ?Hav.
Qed.

(** X3. Every signal [initialize] emits on a handle is emitted with the
    handle already initialized, and its payload is what the handle's
    accessors return at that moment (isAvailable() is true at
    availableChanged(true) and at ready, getAll() is the map of
    propertiesReset, get(key) the value of propertyChanged(key, value),
    error() the error of errorChanged). *)
Theorem initialize_payload_agrees_with_accessors (c : PropertyCache.t) :
  Forall (λ e, match e with
               | Emit s seen => initialized seen = true ∧ agrees seen s
               | _ => False
               end)
    (trace_of (initialize c)).
Proof.
  destruct (initialized c) eqn:Hinit.
  - by rewrite initialize_done.
  - rewrite initialize_first by done. unfold trace_of. cbn [snd].
    apply Forall_fmap. eapply Forall_impl; [apply replay_agrees|].
    by intros s Hs.
Qed.

Lemma relay_connected (c : PropertyCache.t) (e : Emission) :
  connections c = handle_connections →
  relay c e = [Emit (signal e) (with_data (seen e) c)].
Proof. intros Hc. unfold relay. rewrite Hc. by destruct (signal e). Qed.

Lemma relay_all_connected (c : PropertyCache.t) (tr : list Emission) :
  connections c = handle_connections →
  tr ≫= relay c = (λ e, Emit (signal e) (with_data (seen e) c)) <$> tr.
Proof.
  intros Hc. induction tr as [|e tr IH]; [done|].
  cbn [mbind list_bind]. change (mbind ?f tr) with (tr ≫= f).
  by rewrite IH, relay_connected.
Qed.

Lemma relay_all_unconnected (c : PropertyCache.t) (tr : list Emission) :
  connections c = [] → tr ≫= relay c = [].
Proof.
  intros Hc. induction tr as [|e tr IH]; [done|].
  cbn [mbind list_bind]. change (mbind ?f tr) with (tr ≫= f).
  rewrite IH. unfold relay. by rewrite Hc.
Qed.

Lemma emitted_relay_connected (c : PropertyCache.t) (tr : list Emission) :
  connections c = handle_connections →
  emitted (tr ≫= relay c) = signal <$> tr.
Proof.
  intros Hc. rewrite relay_all_connected by done.
  induction tr as [|e tr IH]; [done|]. cbn. by f_equal.
Qed.

Lemma new_run (d : PropertyCacheThreadData.t) :
  PropertyCache.new d
  = if m_available d || QDBusError.isValid (m_error d)
    then (PropertyCache.mk d false [], [InvokeQueuedInitialize])
    else (PropertyCache.mk d true handle_connections, []).
Proof.
  unfold PropertyCache.new, construct. rewrite run_bind, run_gets.
  cbv beta iota zeta. cbn [data].
  destruct (m_available d) eqn:Hav; cbn [negb andb orb]; [done|].
  destruct (QDBusError.isValid (m_error d)) eqn:Herr; cbn [negb]; [done|].
  rewrite initialize_private_first by done.
  unfold replay_signals, state_of, trace_of. cbn [data fst snd].
  by rewrite Hav, Herr.
Qed.

(** X4. Whichever path the constructor takes, once the event loop has run
    what it queued the handle is initialized and holds exactly the six
    connections, each once: from then on it re-emits every signal of its
    thread view exactly once and in order. A handle whose initialize was
    deferred re-emits nothing before that, and the deferred initialize
    replays the state the view holds when it runs. *)
Theorem constructed_handle_relays_once (d later : PropertyCacheThreadData.t)
    (tr : list Emission) :
  let c0 := (PropertyCache.new d).1 in
  let r := run_queued (PropertyCache.new d).2 (with_data later c0) in
  state_of r = PropertyCache.mk later true handle_connections
  ∧ emitted (tr ≫= relay (state_of r)) = signal <$> tr
  ∧ if m_available d || QDBusError.isValid (m_error d)
    then tr ≫= relay c0 = [] ∧ emitted (trace_of r) = replay_signals later
    else emitted (tr ≫= relay c0) = signal <$> tr ∧ trace_of r = [].
Proof.
  cbv zeta. rewrite new_run.
  destruct (m_available d || QDBusError.isValid (m_error d));
    cbn [fst snd with_data data initialized connections].
  - unfold run_queued. cbn [for_each]. rewrite run_bind.
    rewrite initialize_private_first by done. cbv beta iota zeta.
    unfold state_of, trace_of, ret. cbn [fst snd after_initialize data
      connections app].
    rewrite app_nil_r, emitted_fmap_Emit.
    rewrite emitted_relay_connected, relay_all_unconnected by done.
    done.
  - rewrite !emitted_relay_connected by done. done.
Qed.

End handle_pipeline.

(** ** Backend and thread view together *)

Section backend_view.
Import PropertyCacheBackend DeliveryContract Pipeline.

Lemma for_each_app {S E A} (l1 l2 : list A) (body : A → M S E unit) (s : S) :
  for_each (l1 ++ l2) body s = (for_each l1 body ;; for_each l2 body) s.
Proof.
  revert s; induction l1 as [|x l1 IH]; intros s; cbn [for_each app].
  - unfold bind, ret. by destruct (for_each l2 body s) as [[[] ?] ?].
  - unfold bind in *. destruct (body x s) as [[[] s1] t1].
    rewrite IH. destruct (for_each l1 body s1) as [[[] s2] t2].
    destruct (for_each l2 body s2) as [[[] s3] t3]. by rewrite (assoc_L (++)).
Qed.

Lemma signals_app (t1 t2 : list Effect) :
  signals (t1 ++ t2) = signals t1 ++ signals t2.
Proof. apply omap_app. Qed.

Lemma load_outcome (b : t) :
  signals (trace_of (load b)) = []
  ∧ m_properties (state_of (load b)) = m_properties b
  ∧ m_error (state_of (load b)) = m_error b
  ∧ m_available (state_of (load b)) = m_available b.
Proof.
  destruct (m_pendingLoad b) as [w|] eqn:Hp.
  - by rewrite (load_pending b w).
  - rewrite load_run by done. by destruct (m_watcher b).
Qed.

(** What an event does to the part of the Backend a view mirrors: nothing
    with no signal, a full replacement announced by [reset], or a merge of
    the filtered delta announced by [changeProperties]. *)
Lemma handle_outcome (ev : Event) (b : t) :
  let b' := state_of (handle ev b) in
  let sigs := signals (trace_of (handle ev b)) in
  (sigs = [] ∧ m_properties b' = m_properties b ∧ m_error b' = m_error b
   ∧ m_available b' = m_available b)
  ∨ (∃ values error,
       sigs = [reset values error] ∧ m_properties b' = values
       ∧ m_error b' = error
       ∧ m_available b' = negb (QDBusError.isValid error))
  ∨ (∃ changed,
       sigs = [changeProperties (filtered_delta (m_properties b) changed)]
       ∧ m_properties b'
         = filtered_delta (m_properties b) changed ∪ m_properties b
       ∧ m_error b' = m_error b ∧ m_available b' = m_available b).
Proof.
  cbv zeta. destruct ev as [|w reply|service oldOwner newOwner|i changed];
    cbn [handle].
  - left. apply load_outcome.
  - unfold loadReply. run_step. run_step. case_bool_decide; [by left|].
    run_step. right; left. destruct reply as [error|value].
    + exists ∅, error.
      by destruct (bool_decide
                     (QDBusError.type error = QDBusError.ServiceUnknown)).
    + by exists value, QDBusError.none.
  - unfold serviceOwnerChanged. run_step.
    destruct (Target.qstring_isEmpty newOwner).
    + right; left. eexists ∅, _. by destruct (m_pendingLoad b).
    + left. destruct (m_pendingLoad b); by destruct b.
  - rewrite propertiesChanged_run.
    destruct (m_pendingLoad b) as [w|] eqn:Hp; [by left|].
    destruct (m_available b) eqn:Hav.
    + right; right. exists changed. cbn. by rewrite Hav.
    + left. rewrite <- Hav. apply load_outcome.
Qed.

Lemma view_after_in_sync (ev : Event) (b : t) (target : Target.t) :
  state_of (view_after ev b (view_of target b))
  = view_of target (state_of (handle ev b)).
Proof.
  unfold view_after, deliver_all, view_of, PropertyCacheThreadData.new.
  destruct (handle_outcome ev b) as
    [(-> & -> & -> & ->)|[(v & e & -> & -> & -> & ->)
                         |(changed & -> & -> & -> & ->)]].
  - done.
  - cbn [for_each PropertyCacheThreadData.deliver]. rewrite state_of_bind.
    by rewrite reset_run.
  - cbn [for_each PropertyCacheThreadData.deliver]. rewrite state_of_bind.
    by rewrite changeProperties_run.
Qed.

(** X5. A thread view stays the mirror of its Backend: constructed from a
    Backend in any state, and handed in order the signals the Backend emits
    over any sequence of events, the view ends with exactly the property
    map, error and availability the Backend ends with. *)
Theorem view_mirrors_backend (evs : list Event) (b : t) (target : Target.t) :
  state_of (deliver_all (signals (trace_of (run evs b))) (view_of target b))
  = view_of target (state_of (run evs b)).
Proof.
  revert b. induction evs as [|ev evs IH]; intros b; [done|].
  unfold run in *. cbn [for_each].
  rewrite trace_of_bind, state_of_bind, signals_app.
  unfold deliver_all in *. rewrite for_each_app, state_of_bind.
  pose proof (view_after_in_sync ev b target) as Hstep.
  unfold view_after, deliver_all in Hstep. rewrite Hstep. apply IH.
Qed.

End backend_view.

Section exactness.
Import PropertyCacheBackend DeliveryContract Pipeline.

Lemma propertyChanged_in_reset_signals (d : PropertyCacheThreadData.t)
    (values : QVariantMap) (error : QDBusError.t) (key : QString)
    (value : QVariant) :
  propertyChanged key value ∈ reset_signals d values error
  ↔ (values !! key = Some value
     ∧ PropertyCacheThreadData.m_properties d !! key ≠ Some value)
    ∨ (value = Invalid
       ∧ is_Some (PropertyCacheThreadData.m_properties d !! key)
       ∧ values !! key = None).
Proof.
  unfold reset_signals. cbv zeta. rewrite !elem_of_app.
  rewrite !list_elem_of_fmap.
  split.
  - intros [H|[H|[H|[H|[H|[H|H]]]]]].
    + case_bool_decide; [|by apply elem_of_nil in H].
      by apply list_elem_of_singleton in H.
    + case_bool_decide; [|by apply elem_of_nil in H].
      by apply list_elem_of_singleton in H.
    + case_bool_decide; [|by apply elem_of_nil in H].
      by apply list_elem_of_singleton in H.
    + destruct H as ([k v] & [= -> ->] & Hin).
      apply list_elem_of_filter in Hin as [Hne Hin%elem_of_items]. by left.
    + destruct H as ([k v] & [= -> ->] & Hin).
      apply list_elem_of_filter in Hin as [Hnone Hin%elem_of_items].
      right. cbn in *. eauto.
    + case_bool_decide; [|by apply elem_of_nil in H].
      by apply list_elem_of_singleton in H.
    + case_bool_decide; [|by apply elem_of_nil in H].
      by apply list_elem_of_singleton in H.
  - intros [[Hin Hne]|(-> & [old Hold] & Hnone)].
    + do 3 right. left. exists (key, value). split; [done|].
      apply list_elem_of_filter. split; [done|]. by apply elem_of_items.
    + do 4 right. left. exists (key, old). split; [done|].
      apply list_elem_of_filter. split; [done|]. by apply elem_of_items.
Qed.

(** X6. propertyChanged is emitted exactly for the properties whose value
    changed. For a thread view that mirrors its Backend, and any one Backend
    event: the view emits a propertyChanged for a key if and only if the
    view's entry for that key after the event differs from the one before
    (the key is new, gone, or holds another value). *)
Theorem propertyChanged_exactly_when_changed (ev : Event) (b : t)
    (target : Target.t) (key : QString) :
  let d := view_of target b in
  let r := view_after ev b d in
  (∃ value, propertyChanged key value
              ∈ PropertyCacheThreadData.signal <$> trace_of r)
  ↔ PropertyCacheThreadData.m_properties d !! key
    ≠ PropertyCacheThreadData.m_properties (state_of r) !! key.
Proof.
  cbv zeta. rewrite view_after_in_sync.
  unfold view_after, deliver_all, view_of, PropertyCacheThreadData.new.
  cbn [PropertyCacheThreadData.m_properties].
  destruct (handle_outcome ev b) as
    [(-> & -> & _)|[(v & e & -> & -> & _)|(changed & -> & -> & _)]].
  - cbn. split; [|done]. by intros [value ?%elem_of_nil].
  - cbn [for_each PropertyCacheThreadData.deliver]. rewrite trace_of_bind.
    rewrite reset_run. unfold trace_of, ret. cbn [fst snd].
    rewrite app_nil_r, <- list_fmap_compose, list_fmap_id.
    split.
    + intros [value Hin]. apply propertyChanged_in_reset_signals in Hin.
      cbn in Hin. destruct Hin as [[-> Hne]|(-> & [old Hold] & ->)];
        congruence.
    + intros Hne. destruct (v !! key) as [value|] eqn:Hv.
      * exists value. apply propertyChanged_in_reset_signals. left.
        split; [done|]. cbn. congruence.
      * exists Invalid. apply propertyChanged_in_reset_signals. right.
        split; [done|]. split; [|done]. cbn.
        destruct (m_properties b !! key); [eauto|done].
  - cbn [for_each PropertyCacheThreadData.deliver]. rewrite trace_of_bind.
    rewrite changeProperties_run. unfold trace_of, ret. cbn [fst snd].
    rewrite app_nil_r, <- list_fmap_compose. cbn [PropertyCacheThreadData.signal].
    rewrite lookup_union, filtered_delta_lookup. split.
    + intros [value ([k v'] & [= <- <-] & Hin%elem_of_items)%list_elem_of_fmap].
      rewrite filtered_delta_lookup in Hin.
      destruct (changed !! key) as [c|]; [|done].
      destruct (decide (m_properties b !! key = Some c)) as [|Hne]; [done|].
      injection Hin as ->. destruct (m_properties b !! key); cbn; congruence.
    + intros Hne. destruct (changed !! key) as [c|] eqn:Hc.
      * destruct (decide (m_properties b !! key = Some c)) as [Heq|Hd].
        -- destruct Hne. by destruct (m_properties b !! key).
        -- exists c. apply list_elem_of_fmap. exists (key, c). split; [done|].
           apply elem_of_items. rewrite filtered_delta_lookup, Hc.
           by rewrite decide_False.
      * destruct Hne. by destruct (m_properties b !! key).
Qed.

End exactness.


(** ** Loading *)

Section loading.
Import PropertyCacheBackend DeliveryContract Pipeline BusActivity.

Lemma load_twice (b : t) : (load ;; load) b = load b.
Proof.
  rewrite run_bind. destruct (m_pendingLoad b) as [w|] eqn:Hp.
  - rewrite (load_pending b w) by done. cbv beta iota zeta.
    by rewrite (load_pending b w).
  - rewrite load_run by done. cbv beta iota zeta.
    rewrite (load_pending _ (allocated b)) by done. by rewrite app_nil_r.
Qed.

(** X7. At most one GetAll is in flight: a [load] called while one is
    pending does nothing at all, so two calls of [load] in a row dispatch
    what one call dispatches, from any Backend state; and any number of
    further calls while the first is pending changes nothing. *)
Theorem load_is_idempotent_while_pending (b : t) (n : nat) :
  (load ;; load) b = load b
  ∧ for_each (replicate n ()) (λ _, load) (state_of (load b))
    = (tt, state_of (load b), []).
Proof.
  split; [apply load_twice|].
  assert (∃ w, m_pendingLoad (state_of (load b)) = Some w) as [w Hw].
  { destruct (m_pendingLoad b) as [w|] eqn:Hp.
    - rewrite (load_pending b w) by done. eauto.
    - rewrite load_run by done. eauto. }
  induction n as [|n IH]; [done|].
  cbn [replicate for_each]. rewrite run_bind, (load_pending _ w) by done.
  cbv beta iota zeta. by rewrite IH.
Qed.

Lemma handle_subscriptions (ev : Event) (b : t) :
  m_target (state_of (handle ev b)) = m_target b
  ∧ (m_watcher b = true → m_watcher (state_of (handle ev b)) = true)
  ∧ subscriptions (trace_of (handle ev b))
    = if m_watcher b then []
      else if m_watcher (state_of (handle ev b))
           then subscriptions_of (m_target b) else [].
Proof.
  assert (m_target (state_of (load b)) = m_target b
          ∧ (m_watcher b = true → m_watcher (state_of (load b)) = true)
          ∧ subscriptions (trace_of (load b))
            = if m_watcher b then []
              else if m_watcher (state_of (load b))
                   then subscriptions_of (m_target b) else []) as Hload.
  { destruct (m_pendingLoad b) as [w|] eqn:Hp.
    - rewrite (load_pending b w) by done. cbn. by destruct (m_watcher b).
    - rewrite load_run by done. by destruct (m_watcher b). }
  destruct ev as [|w reply|service oldOwner newOwner|i changed]; cbn [handle].
  - done.
  - unfold loadReply. run_step. run_step.
    case_bool_decide; [cbn; by destruct (m_watcher b)|]. run_step.
    destruct reply as [error|value]; [|cbn; by destruct (m_watcher b)].
    destruct (bool_decide (QDBusError.type error = QDBusError.ServiceUnknown));
      cbn; by destruct (m_watcher b).
  - unfold serviceOwnerChanged. run_step.
    destruct (Target.qstring_isEmpty newOwner), (m_pendingLoad b); cbn;
      by destruct (m_watcher b).
  - rewrite propertiesChanged_run.
    destruct (m_pendingLoad b) as [w|] eqn:Hp;
      [cbn; by destruct (m_watcher b)|].
    destruct (m_available b); [|done]. cbn. by destruct (m_watcher b).
Qed.

Lemma run_subscriptions (evs : list Event) (b : t) :
  m_target (state_of (run evs b)) = m_target b
  ∧ (m_watcher b = true → m_watcher (state_of (run evs b)) = true)
  ∧ subscriptions (trace_of (run evs b))
    = if m_watcher b then []
      else if m_watcher (state_of (run evs b))
           then subscriptions_of (m_target b) else [].
Proof.
  revert b. induction evs as [|ev evs IH]; intros b.
  { cbn. by destruct (m_watcher b). }
  unfold run in *. cbn [for_each]. rewrite trace_of_bind, state_of_bind.
  destruct (handle_subscriptions ev b) as (Htg & Hmono & Hsub).
  destruct (IH (state_of (handle ev b))) as (Htg' & Hmono' & Hsub').
  unfold subscriptions in *. rewrite omap_app, Hsub, Hsub', Htg', Htg.
  split; [done|]. split; [auto|].
  destruct (m_watcher b) eqn:Hw.
  - by rewrite Hmono by done.
  - destruct (m_watcher (state_of (handle ev b))) eqn:Hw'.
    + rewrite Hmono' by done. by rewrite app_nil_r.
    + done.
Qed.

(** X8. The service-owner watch and the PropertiesChanged subscription are
    installed once: over any sequence of events on a Backend made by the
    constructor, the trace holds either no subscription at all (no load has
    run yet) or exactly the two of the Backend's target, once each. *)
Theorem subscriptions_installed_once (target : Target.t) (evs : list Event) :
  let r := run evs (new target) in
  subscriptions (trace_of r)
  = if m_watcher (state_of r) then subscriptions_of target else [].
Proof. cbv zeta. by destruct (run_subscriptions evs (new target)) as (_ & _ & ->). Qed.

Lemma loadReply_stale (w : Watcher) (reply : Reply) (b : t) :
  m_pendingLoad b ≠ Some w → loadReply w reply b = (tt, b, [DeleteLater w]).
Proof.
  intros Hp. unfold loadReply. run_step. run_step.
  rewrite bool_decide_eq_true_2 by congruence. done.
Qed.

Lemma handle_pending_allocated (ev : Event) (b : t) :
  (∀ w, m_pendingLoad b = Some w → w < allocated b) →
  allocated b ≤ allocated (state_of (handle ev b))
  ∧ ∀ w, m_pendingLoad (state_of (handle ev b)) = Some w →
         w < allocated (state_of (handle ev b))
         ∧ (m_pendingLoad b = Some w ∨ allocated b ≤ w).
Proof.
  intros Hinv.
  assert (allocated b ≤ allocated (state_of (load b))
          ∧ ∀ w, m_pendingLoad (state_of (load b)) = Some w →
                 w < allocated (state_of (load b))
                 ∧ (m_pendingLoad b = Some w ∨ allocated b ≤ w)) as Hload.
  { destruct (m_pendingLoad b) as [w0|] eqn:Hp.
    - rewrite (load_pending b w0) by done. cbn. split; [lia|].
      intros w Hw. rewrite Hp in Hw. split; [auto|]. left. congruence.
    - rewrite load_run by done. cbn. split; [lia|].
      intros w [= <-]. split; [lia|]. by right. }
  destruct ev as [|w0 reply|service oldOwner newOwner|i changed]; cbn [handle].
  - done.
  - unfold loadReply. run_step. run_step. case_bool_decide.
    + cbn. split; [lia|]. intros w Hw. split; [auto|by left].
    + run_step. destruct reply as [error|value].
      * destruct (bool_decide
                    (QDBusError.type error = QDBusError.ServiceUnknown));
          cbn; (split; [lia|done]).
      * cbn. split; [lia|done].
  - unfold serviceOwnerChanged. run_step.
    destruct (Target.qstring_isEmpty newOwner), (m_pendingLoad b) eqn:Hp; cbn;
      rewrite ?Hp; (split; [lia|done]).
  - rewrite propertiesChanged_run.
    destruct (m_pendingLoad b) as [w0|] eqn:Hp.
    + cbn. split; [lia|]. intros w Hw. rewrite Hp in Hw.
      split; [auto|]. left. congruence.
    + destruct (m_available b); [|done]. cbn. rewrite Hp. split; [lia|done].
Qed.

Lemma run_pending_allocated (evs : list Event) (b : t) :
  (∀ w, m_pendingLoad b = Some w → w < allocated b) →
  allocated b ≤ allocated (state_of (run evs b))
  ∧ ∀ w, m_pendingLoad (state_of (run evs b)) = Some w →
         w < allocated (state_of (run evs b))
         ∧ (m_pendingLoad b = Some w ∨ allocated b ≤ w).
Proof.
  revert b. induction evs as [|ev evs IH]; intros b Hinv.
  { cbn. split; [lia|]. intros w Hw. split; [auto|by left]. }
  unfold run in *. cbn [for_each]. rewrite state_of_bind.
  destruct (handle_pending_allocated ev b Hinv) as [Hle Hstep].
  destruct (IH (state_of (handle ev b))) as [Hle' Hrest].
  { intros w Hw. by apply Hstep. }
  split; [lia|]. intros w Hw. destruct (Hrest w Hw) as [Hlt [Hold|Hnew]].
  - split; [done|]. destruct (Hstep w Hold) as [_ [?|?]]; [by left|by right].
  - split; [done|]. right. lia.
Qed.

(** X9. A reply to a cancelled GetAll is never applied. When a GetAll is
    pending on a Backend (reached from construction by any events) and the
    service owner changes, the reply of that GetAll, whenever it arrives and
    whatever happened in between (new loads included), changes nothing and
    emits nothing: the watcher is only scheduled for deletion. *)
Theorem cancelled_reply_is_ignored (target : Target.t) (evs evs' : list Event)
    (w : Watcher) (service oldOwner newOwner : QString) (reply : Reply) :
  m_pendingLoad (state_of (run evs (new target))) = Some w →
  let b' := state_of (run (evs ++ ServiceOwnerChanged service oldOwner newOwner
                             :: evs') (new target)) in
  loadReply w reply b' = (tt, b', [DeleteLater w]).
Proof.
  intros Hp. cbv zeta. apply loadReply_stale.
  unfold run in *. rewrite for_each_app, state_of_bind.
  cbn [for_each]. rewrite state_of_bind.
  set (b := state_of (for_each evs handle (new target))) in *.
  destruct (run_pending_allocated evs (new target)) as [_ Hb]; [done|].
  destruct (Hb w Hp) as [Hlt _]. change (w < allocated b) in Hlt.
  set (b1 := state_of (handle (ServiceOwnerChanged service oldOwner newOwner) b)).
  assert (m_pendingLoad b1 = None ∧ allocated b1 = allocated b) as [Hp1 Ha1].
  { subst b1. cbn [handle]. unfold serviceOwnerChanged. run_step.
    destruct (Target.qstring_isEmpty newOwner), (m_pendingLoad b); by cbn. }
  destruct (run_pending_allocated evs' b1) as [_ Hb']; [by rewrite Hp1|].
  intros Hw. destruct (Hb' w Hw) as [_ [Hold|Hnew]].
  - by rewrite Hp1 in Hold.
  - rewrite Ha1 in Hnew. lia.
Qed.

(** The statement above where a second load is made before the reply of the
    cancelled one arrives. *)
Lemma cancelled_reply_is_ignored_witness :
  let b' := state_of (run [Load; ServiceOwnerChanged "test.service" ":1.7" "";
                           Load]
                        (new Examples.test_target)) in
  m_pendingLoad b' = Some 1
  ∧ loadReply 0 (ReplyValue Examples.str_one) b' = (tt, b', [DeleteLater 0]).
Proof.
  split; [reflexivity|].
  exact (cancelled_reply_is_ignored Examples.test_target [Load] [Load] 0
           "test.service" ":1.7" "" (ReplyValue Examples.str_one) eq_refl).
Defined.

End loading.

(** ** The documented signal sequences *)

Lemma signal_fmap_mk (seen : PropertyCacheThreadData.t) (l : list Signal) :
  PropertyCacheThreadData.signal
    <$> ((λ s, {| PropertyCacheThreadData.signal := s;
                  PropertyCacheThreadData.seen := seen |}) <$> l) = l.
Proof. rewrite <- list_fmap_compose. apply list_fmap_id. Qed.

Lemma filter_all {A} (P : A → Prop) `{∀ x, Decision (P x)} (l : list A) :
  (∀ x, x ∈ l → P x) → filter P l = l.
Proof.
  induction l as [|x l IH]; intros Hl; [done|].
  rewrite filter_cons_True by (apply Hl; left).
  f_equal. apply IH. intros y Hy. apply Hl. by right.
Qed.

Section sequences.
Import PropertyCacheBackend DeliveryContract Pipeline.

Lemma view_after_reset (ev : Event) (b : t) (d : PropertyCacheThreadData.t)
    (values : QVariantMap) (error : QDBusError.t) :
  signals (trace_of (handle ev b)) = [reset values error] →
  view_after ev b d
  = (tt, post_reset d values error,
     (λ s, {| PropertyCacheThreadData.signal := s;
              PropertyCacheThreadData.seen := post_reset d values error |})
       <$> reset_signals d values error).
Proof.
  intros Hs. unfold view_after, deliver_all. rewrite Hs.
  cbn [for_each PropertyCacheThreadData.deliver].
  rewrite run_bind, reset_run. cbv beta iota zeta. unfold ret.
  by rewrite app_nil_r.
Qed.

Lemma loadReply_signals (w : Watcher) (reply : Reply) (b : t) :
  m_pendingLoad b = Some w →
  signals (trace_of (loadReply w reply b))
  = [match reply with
     | ReplyError error => reset ∅ error
     | ReplyValue value => reset value QDBusError.none
     end].
Proof.
  intros Hp. unfold loadReply. run_step. run_step.
  rewrite bool_decide_eq_false_2 by (rewrite Hp; auto). run_step.
  destruct reply as [error|value]; [|done].
  by destruct (bool_decide (QDBusError.type error = QDBusError.ServiceUnknown)).
Qed.

(** X10. When the service goes away (owner change to no owner) while a
    thread view is available, the view emits, in this order:
    availableChanged(false); errorChanged(ServiceUnknown); propertiesReset
    with an empty map, if any property had a value; propertyChanged(key,
    invalid) for every property that had a value, in key order; lost. It
    ends unavailable, with that error and no property. *)
Theorem service_lost_sequence (b : t) (d : PropertyCacheThreadData.t)
    (service oldOwner : QString) :
  PropertyCacheThreadData.m_available d = true →
  QDBusError.type (PropertyCacheThreadData.m_error d) = QDBusError.NoError →
  let r := view_after (ServiceOwnerChanged service oldOwner "") b d in
  let gone :=
    QDBusError.mk QDBusError.ServiceUnknown "DBus service disconnected" in
  PropertyCacheThreadData.signal <$> trace_of r
  = [availableChanged false; errorChanged gone]
    ++ (if bool_decide (PropertyCacheThreadData.m_properties d ≠ ∅)
        then [propertiesReset ∅] else [])
    ++ ((λ it, propertyChanged it.1 Invalid)
          <$> items (PropertyCacheThreadData.m_properties d))
    ++ [lost]
  ∧ state_of r
    = PropertyCacheThreadData.mk (PropertyCacheThreadData.m_target d) ∅ gone
        false.
Proof.
  intros Hav Herr. cbv zeta.
  rewrite (view_after_reset _ _ _ ∅
             (QDBusError.mk QDBusError.ServiceUnknown
                "DBus service disconnected")).
  2:{ cbn [handle]. unfold serviceOwnerChanged. run_step.
      by destruct (m_pendingLoad b). }
  unfold state_of, trace_of. cbn [fst snd]. split; [|done].
  rewrite signal_fmap_mk. unfold reset_signals. cbv zeta.
  rewrite Hav, Herr, items_empty. cbn [negb QDBusError.isValid QDBusError.type].
  rewrite (filter_all (λ it : QString * QVariant,
                         (∅ : QVariantMap) !! it.1 = None))
    by (intros [k v] _; apply lookup_empty).
  rewrite (bool_decide_eq_true_2 (true ≠ _)) by done.
  rewrite (bool_decide_eq_true_2 (QDBusError.NoError ≠ _)) by done.
  rewrite (bool_decide_eq_true_2 (true = true ∧ _)) by done.
  rewrite (bool_decide_eq_false_2 (true = false ∧ _)) by (by intros [? _]).
  cbn [app filter list_filter fmap list_fmap].
  do 2 f_equal. f_equal.
  repeat case_bool_decide; try done; intuition congruence.
Qed.

(** The statement above on the view and the Backend that hold
    [str = "one"]. *)
Lemma service_lost_sequence_witness :
  PropertyCacheThreadData.signal
    <$> trace_of (view_after (ServiceOwnerChanged "test.service" ":1.7" "")
                    Examples.loaded_backend Examples.loaded_view)
  = [availableChanged false;
     errorChanged
       (QDBusError.mk QDBusError.ServiceUnknown "DBus service disconnected");
     propertiesReset ∅; propertyChanged "str" Invalid; lost].
Proof.
  exact (proj1 (service_lost_sequence Examples.loaded_backend
                  Examples.loaded_view "test.service" ":1.7"
                  eq_refl eq_refl)).
Defined.

(** X11. When the reply of the pending GetAll arrives with the properties
    while a thread view is unavailable and empty, the view emits, in this
    order: availableChanged(true); errorChanged with no error, if it held
    an error; propertiesReset with all properties, if there is any;
    propertyChanged for every property, in key order; ready. It ends
    available, with no error and those properties. *)
Theorem load_success_sequence (b : t) (d : PropertyCacheThreadData.t)
    (w : Watcher) (value : QVariantMap) :
  m_pendingLoad b = Some w →
  PropertyCacheThreadData.m_available d = false →
  PropertyCacheThreadData.m_properties d = ∅ →
  let r := view_after (LoadReply w (ReplyValue value)) b d in
  PropertyCacheThreadData.signal <$> trace_of r
  = [availableChanged true]
    ++ (if bool_decide (QDBusError.type (PropertyCacheThreadData.m_error d)
                        ≠ QDBusError.NoError)
        then [errorChanged QDBusError.none] else [])
    ++ (if bool_decide (value ≠ ∅) then [propertiesReset value] else [])
    ++ ((λ it, propertyChanged it.1 it.2) <$> items value)
    ++ [ready]
  ∧ state_of r
    = PropertyCacheThreadData.mk (PropertyCacheThreadData.m_target d) value
        QDBusError.none true.
Proof.
  intros Hp Hav Hempty. cbv zeta.
  rewrite (view_after_reset _ _ _ value QDBusError.none)
    by (cbn [handle]; by rewrite loadReply_signals).
  unfold state_of, trace_of. cbn [fst snd]. split; [|done].
  rewrite signal_fmap_mk. unfold reset_signals. cbv zeta.
  rewrite Hav, Hempty, items_empty.
  cbn [negb QDBusError.isValid QDBusError.type QDBusError.none].
  rewrite filter_all by (intros [k v] _; by rewrite lookup_empty).
  rewrite (bool_decide_eq_true_2 (false ≠ _)) by done.
  rewrite (bool_decide_eq_false_2 (false = true ∧ _)) by (by intros [? _]).
  rewrite (bool_decide_eq_true_2 (false = false ∧ _)) by done.
  cbn [app filter list_filter fmap list_fmap]. f_equal. f_equal. f_equal.
  repeat case_bool_decide; try done; intuition congruence.
Qed.

(** The statement above on a view that saw the load fail and a Backend
    that retries. *)
Lemma load_success_sequence_witness :
  PropertyCacheThreadData.signal
    <$> trace_of (view_after (LoadReply 0 (ReplyValue Examples.str_one))
                    Scenario.loading_backend
                    (view_of Examples.test_target Scenario.failed_backend))
  = [availableChanged true; errorChanged QDBusError.none;
     propertiesReset Examples.str_one; propertyChanged "str" (VString "one");
     ready].
Proof.
  exact (proj1 (load_success_sequence Scenario.loading_backend
                  (view_of Examples.test_target Scenario.failed_backend)
                  0 Examples.str_one eq_refl eq_refl eq_refl)).
Defined.

(** X12. When the reply of the pending GetAll is an error while a thread
    view is unavailable and empty, the view emits errorChanged(error) if
    the error kind differs from the one it held and nothing else: no
    availableChanged, no propertiesReset, no propertyChanged, no ready and
    no lost. It stays unavailable and empty and holds the new error. *)
Theorem load_failure_sequence (b : t) (d : PropertyCacheThreadData.t)
    (w : Watcher) (error : QDBusError.t) :
  m_pendingLoad b = Some w →
  QDBusError.isValid error = true →
  PropertyCacheThreadData.m_available d = false →
  PropertyCacheThreadData.m_properties d = ∅ →
  let r := view_after (LoadReply w (ReplyError error)) b d in
  PropertyCacheThreadData.signal <$> trace_of r
  = (if bool_decide (QDBusError.type (PropertyCacheThreadData.m_error d)
                     ≠ QDBusError.type error)
     then [errorChanged error] else [])
  ∧ state_of r
    = PropertyCacheThreadData.mk (PropertyCacheThreadData.m_target d) ∅ error
        false.
Proof.
  intros Hp Hvalid Hav Hempty. cbv zeta.
  rewrite (view_after_reset _ _ _ ∅ error)
    by (cbn [handle]; by rewrite loadReply_signals).
  unfold state_of, trace_of, post_reset. cbn [fst snd].
  rewrite Hvalid. split; [|done].
  rewrite signal_fmap_mk. unfold reset_signals. cbv zeta.
  rewrite Hav, Hempty, Hvalid, items_empty. cbn [negb].
  rewrite (bool_decide_eq_false_2 (false ≠ false)) by auto.
  rewrite (bool_decide_eq_false_2 (∅ ≠ ∅ ∨ ∅ ≠ ∅)) by (by intros [?|?]).
  rewrite (bool_decide_eq_false_2 (false = true ∧ _)) by (by intros [? _]).
  rewrite (bool_decide_eq_false_2 (false = false ∧ _)) by (by intros [_ ?]).
  cbn [app filter list_filter fmap list_fmap]. by rewrite app_nil_r.
Qed.

(** The statement above for the first load of a handle whose service is not
    on the bus. *)
Lemma load_failure_sequence_witness :
  PropertyCacheThreadData.signal
    <$> trace_of (view_after
                    (LoadReply 0 (ReplyError Scenario.service_unknown))
                    Scenario.loading_backend Examples.loading_view)
  = [errorChanged Scenario.service_unknown].
Proof.
  exact (proj1 (load_failure_sequence Scenario.loading_backend
                  Examples.loading_view 0 Scenario.service_unknown
                  eq_refl eq_refl eq_refl eq_refl)).
Defined.

End sequences.

Section late_initialize.
Import PropertyCacheThreadData PropertyCache DeliveryContract Contract.



End late_initialize.

Section self_healing.
Import PropertyCacheBackend DeliveryContract Pipeline BusActivity.

Lemma loadReply_value_run (w : Watcher) (value : QVariantMap) (b : t) :
  m_pendingLoad b = Some w →
  loadReply w (ReplyValue value) b
  = (tt,
     mk (m_target b) value QDBusError.none true (m_watcher b) None
        (allocated b),
     [DeleteLater w; Emit (reset value QDBusError.none)]).
Proof.
  intros Hp. unfold loadReply. run_step. run_step.
  rewrite bool_decide_eq_false_2 by (rewrite Hp; auto). by run_step.
Qed.

(** X14. An unexpected PropertiesChanged heals a failed Backend without
    leaking its payload. On a Backend that is unavailable with no GetAll
    pending, the signal emits nothing, leaves the cached map as it is and
    dispatches a GetAll; when that call's reply arrives with the
    properties, the Backend holds exactly the reply (no entry of the signal
    survives unless the reply has it) and announces it with one [reset]. *)
Theorem unexpected_change_forces_reload (b : t) (interface : QString)
    (changed value : QVariantMap) :
  m_pendingLoad b = None →
  m_available b = false →
  let r1 := propertiesChanged interface changed b in
  let r2 := loadReply (allocated b) (ReplyValue value) (state_of r1) in
  signals (trace_of r1) = []
  ∧ length (calls (trace_of r1)) = 1
  ∧ m_properties (state_of r1) = m_properties b
  ∧ m_pendingLoad (state_of r1) = Some (allocated b)
  ∧ signals (trace_of r2) = [reset value QDBusError.none]
  ∧ m_properties (state_of r2) = value
  ∧ m_available (state_of r2) = true
  ∧ m_pendingLoad (state_of r2) = None.
Proof.
  intros Hp Hav. cbv zeta. rewrite propertiesChanged_run, Hp, Hav.
  rewrite load_run by done.
  change (state_of (tt, ?s, ?tr)) with s.
  rewrite loadReply_value_run by done.
  unfold state_of, trace_of. cbn [fst snd m_properties m_pendingLoad].
  repeat split; try by destruct (m_watcher b).
Qed.

(** The statement above on the Backend whose load failed. *)
Lemma unexpected_change_forces_reload_witness :
  let r1 := propertiesChanged "test.service" {[ "unexpected" := VBool true ]}
              Scenario.failed_backend in
  let r2 := loadReply 1 (ReplyValue Examples.str_one) (state_of r1) in
  m_properties (state_of r2) = Examples.str_one
  ∧ m_properties (state_of r2) !! "unexpected" = None.
Proof.
  split; [|reflexivity].
  exact (proj1 (proj2 (proj2 (proj2 (proj2 (proj2
    (unexpected_change_forces_reload Scenario.failed_backend "test.service"
       {[ "unexpected" := VBool true ]} Examples.str_one
       eq_refl eq_refl))))))).
Defined.

(** X15. The assertion that opens [PropertyCacheThreadData::reset] never
    fires: over any sequence of events, from any Backend state, every
    [reset] the Backend emits carries either no error or an empty map. *)
Theorem backend_resets_are_well_formed (evs : list Event) (b : t) :
  Forall well_formed (signals (trace_of (run evs b))).
Proof.
  revert b. induction evs as [|ev evs IH]; intros b; [by constructor|].
  unfold run in *. cbn [for_each]. rewrite trace_of_bind, signals_app.
  apply Forall_app. split; [|apply IH].
  apply Forall_forall. intros [values error|values] Hin; [|done].
  by apply (backend_resets_pass_assertion ev b).
Qed.


End self_healing.

Section arguments.

(** X16. A variant argument is wrapped for the bus exactly once: the
    conversion of a [QVariant] always yields a [QDBusVariant], a value that
    already is one is passed through as it is, so converting twice is
    converting once; a string argument is passed as the string. A method
    call carries one converted argument per argument given, in order, and
    is addressed to the target's service, path and interface. *)
Theorem variant_arguments_wrapped_once (tg : Target.t) (method : QString)
    (args : list Arg) (v : QVariant) (s : QString) :
  (∃ inner, toDBusArgVariant (ArgVariant v) = VDBusVariant inner)
  ∧ toDBusArgVariant (ArgVariant (toDBusArgVariant (ArgVariant v)))
    = toDBusArgVariant (ArgVariant v)
  ∧ toDBusArgVariant (ArgVariant (VDBusVariant v)) = VDBusVariant v
  ∧ toDBusArgVariant (ArgString s) = VString s
  ∧ length (msg_arguments (createMethodCall tg method args)) = length args
  ∧ (∀ i a, args !! i = Some a →
       msg_arguments (createMethodCall tg method args) !! i
       = Some (toDBusArgVariant a))
  ∧ msg_service (createMethodCall tg method args) = Target.service tg
  ∧ msg_path (createMethodCall tg method args) = Target.path tg
  ∧ msg_interface (createMethodCall tg method args) = Target.interface tg
  ∧ msg_member (createMethodCall tg method args) = method.
Proof.
  repeat split.
  - destruct v; eauto.
  - by destruct v.
  - cbn. by rewrite length_fmap.
  - intros i a Hi. cbn. by rewrite list_lookup_fmap, Hi.
Qed.

End arguments.

(** ** The registry *)

Section registry.
Import BackendRegistry.

Lemma set_unused_same (s : t) :
  set_unusedCacheBackends (unusedCacheBackends s) s = s.
Proof. by destruct s. Qed.

Lemma evict_run (turns : nat) (s : t) :
  length (unusedCacheBackends s) ≤ turns →
  evict turns s
  = (tt, set_unusedCacheBackends (take 4 (unusedCacheBackends s)) s,
     DeleteLater <$> reverse (drop 4 (unusedCacheBackends s))).
Proof.
  revert s. induction turns as [|turns IH]; intros s Hlen.
  - destruct (unusedCacheBackends s) eqn:Hl; [|cbn in Hlen; lia].
    cbn. rewrite <- Hl. by rewrite set_unused_same.
  - cbn [evict]. rewrite run_bind, run_gets. cbv beta iota zeta.
    unfold unusedCacheCapacity. case_bool_decide as Hcap.
    + destruct (last (unusedCacheBackends s)) as [x|] eqn:Hlast.
      2:{ apply last_None in Hlast. rewrite Hlast in Hcap. cbn in Hcap. lia. }
      apply last_Some in Hlast as [l Hl]. rewrite Hl in *.
      rewrite length_app in *. cbn [length] in *.
      run_step. run_step.
      replace (length l + 1 - 1) with (length l) by lia.
      rewrite take_app_length.
      rewrite IH by (cbn; lia). cbn [unusedCacheBackends set_unusedCacheBackends
        backendThread cacheBackends strongref objects blocks app].
      rewrite take_app_le, drop_app_le by lia.
      rewrite reverse_app. cbn. by f_equal.
    + cbn. rewrite take_ge, drop_ge by lia. by rewrite set_unused_same.
Qed.

Lemma backendReleased_run (backend : Object) (s : t) :
  backendReleased backend s
  = (tt,
     mk (backendThread s)
        (match cacheBackends s !! m_target backend with
         | Some w => if isNull s w
                     then delete (m_target backend) (cacheBackends s)
                     else cacheBackends s
         | None => cacheBackends s
         end)
        (backend :: take 4 (unusedCacheBackends s))
        (strongref s) (objects s) (blocks s),
     DeleteLater <$> reverse (drop 4 (unusedCacheBackends s))).
Proof.
  unfold backendReleased. run_step. rewrite run_bind.
  set (cb' := match cacheBackends s !! m_target backend with
              | Some w => if isNull s w
                          then delete (m_target backend) (cacheBackends s)
                          else cacheBackends s
              | None => cacheBackends s
              end).
  assert (match cacheBackends s !! m_target backend with
          | Some w =>
              null <- gets (λ s, isNull s w) ;;
              when null
                (modify (set_cacheBackends
                           (delete (m_target backend) (cacheBackends s))))
          | None => ret tt
          end s = (tt, set_cacheBackends cb' s, [])) as ->.
  { subst cb'. destruct (cacheBackends s !! m_target backend) as [w|].
    - run_step. destruct (isNull s w); [done|]. by destruct s.
    - by destruct s. }
  cbv beta iota zeta. run_step.
  rewrite run_bind, evict_run by done. cbv beta iota zeta.
  rewrite run_modify. cbn. by rewrite app_nil_r.
Qed.

Lemma take_app_take {A} (n : nat) (l1 l2 : list A) :
  take n (l1 ++ take n l2) = take n (l1 ++ l2).
Proof.
  rewrite !take_app, take_take. f_equal. f_equal. lia.
Qed.

Lemma deleted_fmap (l : list Object) : deleted (DeleteLater <$> l) = l.
Proof. induction l as [|o l IH]; [done|]. cbn. by f_equal. Qed.

Lemma deleted_app (t1 t2 : list Effect) :
  deleted (t1 ++ t2) = deleted t1 ++ deleted t2.
Proof. apply omap_app. Qed.

Lemma constructed_app (t1 t2 : list Effect) :
  constructed (t1 ++ t2) = constructed t1 ++ constructed t2.
Proof. apply omap_app. Qed.

Lemma constructed_fmap_DeleteLater (l : list Object) :
  constructed (DeleteLater <$> l) = [].
Proof. by induction l. Qed.

Lemma released_all_unused (o : Object) (os : list Object) (s : t) :
  unusedCacheBackends (state_of (for_each (o :: os) backendReleased s))
  = take 5 (reverse (o :: os) ++ unusedCacheBackends s).
Proof.
  revert o s. induction os as [|o' os IH]; intros o s.
  - cbn [for_each]. rewrite state_of_bind, backendReleased_run. done.
  - cbn [for_each] in *. rewrite state_of_bind. rewrite IH.
    rewrite backendReleased_run. unfold state_of.
    cbn [fst snd unusedCacheBackends].
    change (o :: take 4 (unusedCacheBackends s))
      with (take 5 (o :: unusedCacheBackends s)).
    rewrite take_app_take. rewrite (reverse_cons _ o).
    by rewrite <- (assoc_L (++)).
Qed.

Lemma released_all_conserves (os : list Object) (s : t) :
  unusedCacheBackends (state_of (for_each os backendReleased s))
    ++ deleted (trace_of (for_each os backendReleased s))
  ≡ₚ reverse os ++ unusedCacheBackends s
  ∧ constructed (trace_of (for_each os backendReleased s)) = [].
Proof.
  revert s. induction os as [|o os IH]; intros s.
  - cbn. by rewrite app_nil_r.
  - cbn [for_each]. rewrite state_of_bind, trace_of_bind.
    rewrite deleted_app, constructed_app.
    destruct (IH (state_of (backendReleased o s))) as [Hperm Hcons].
    rewrite Hcons. rewrite backendReleased_run in *.
    unfold state_of, trace_of, value_of in *.
    cbn [fst snd unusedCacheBackends] in *.
    rewrite deleted_fmap, constructed_fmap_DeleteLater. split; [|done].
    rewrite (assoc_L (++)),
      (Permutation_app_comm (unusedCacheBackends _)), <- (assoc_L (++)).
    rewrite Hperm. rewrite reverse_cons, <- (assoc_L (++)).
    rewrite (Permutation_app_comm (reverse (drop 4 _))).
    rewrite <- (assoc_L (++)). apply Permutation_app_head. cbn.
    apply Permutation_skip. rewrite reverse_Permutation.
    by rewrite take_drop.
Qed.

(** X17. The cache of unreferenced Backends is a most-recently-released
    list of at most five. After any non-empty series of releases it holds
    the five most recently released or retained Backends, the latest first;
    every Backend pushed out is scheduled for deletion and nothing else is
    (released and retained Backends are all either still cached or
    scheduled for deletion), and no Backend is constructed. *)
Theorem released_backends_form_an_lru (o : Object) (os : list Object) (s : t) :
  let r := for_each (o :: os) backendReleased s in
  unusedCacheBackends (state_of r)
  = take unusedCacheCapacity (reverse (o :: os) ++ unusedCacheBackends s)
  ∧ length (unusedCacheBackends (state_of r)) ≤ unusedCacheCapacity
  ∧ unusedCacheBackends (state_of r) ++ deleted (trace_of r)
    ≡ₚ reverse (o :: os) ++ unusedCacheBackends s
  ∧ constructed (trace_of r) = [].
Proof.
  cbv zeta. rewrite released_all_unused. split; [done|].
  split; [rewrite length_take; unfold unusedCacheCapacity; lia|].
  rewrite <- released_all_unused. apply released_all_conserves.
Qed.

Lemma instance_run (target : Target.t) (s : t) :
  let fresh :=
    match list_find (λ o, m_target o = target) (unusedCacheBackends s) with
    | Some (i, cachedBackend) =>
        ({| block := blocks s; object := cachedBackend |},
         mk (backendThread s)
            (<[target := {| block := blocks s; object := cachedBackend |}]>
               (cacheBackends s))
            (delete i (unusedCacheBackends s))
            (<[blocks s := 1]> (strongref s)) (objects s) (S (blocks s)),
         [])
    | None =>
        let o := {| address := objects s; m_target := target |} in
        ({| block := blocks s; object := o |},
         mk true
            (<[target := {| block := blocks s; object := o |}]>
               (cacheBackends s))
            (unusedCacheBackends s)
            (<[blocks s := 1]> (strongref s)) (S (objects s)) (S (blocks s)),
         (if backendThread s then [] else [StartThread]) ++ [Construct o])
    end in
  instance target s
  = match cacheBackends s !! target with
    | Some w =>
        if isNull s w then fresh
        else (w,
              set_strongref (<[block w := S (strong_count s w)]> (strongref s))
                s, [])
    | None => fresh
    end.
Proof.
  cbv zeta. unfold instance. run_step. rewrite run_bind.
  destruct (cacheBackends s !! target) as [w|].
  - unfold toStrongRef. run_step. unfold isNull.
    destruct (bool_decide (strong_count s w = 0)).
    + unfold ret at 1. cbv beta iota zeta. run_step.
      destruct (list_find _ (unusedCacheBackends s)) as [[i cached]|].
      * done.
      * unfold construct, make_shared, bind, gets, modify, tell, when, ret.
        destruct s as [[] cb un sr ob bl]; done.
    + run_step. unfold ret at 1. cbv beta iota zeta. done.
  - unfold ret at 1. cbv beta iota zeta. run_step.
    destruct (list_find _ (unusedCacheBackends s)) as [[i cached]|].
    + done.
    + unfold construct, make_shared, bind, gets, modify, tell, when, ret.
      destruct s as [[] cb un sr ob bl]; done.
Qed.

Lemma length_delete_le {A} (i : nat) (l : list A) :
  length (delete i l) ≤ length l.
Proof.
  revert i. induction l as [|x l IH]; intros [|i]; simpl; try lia.
  specialize (IH i). lia.
Qed.

Lemma clear_loop_run (l : list Object) (s : t) :
  for_each l (λ o, tell (DeleteLater o)) s = (tt, s, DeleteLater <$> l).
Proof.
  rewrite (for_each_frame _ _ _ (λ o, [DeleteLater o])) by done.
  by rewrite bind_singleton.
Qed.

Lemma step_keeps_bound (st : Step) (s : t) :
  length (unusedCacheBackends s) ≤ unusedCacheCapacity →
  length (unusedCacheBackends (state_of (step st s))) ≤ unusedCacheCapacity.
Proof.
  intros Hlen. destruct st as [target|p|backend| |]; cbn [step].
  - rewrite state_of_bind. cbn [ret state_of fst snd].
    change (instance target s).1.2 with (state_of (instance target s)).
    rewrite instance_run. cbv zeta.
    pose proof (length_delete_le (A:=Object)) as Hdel.
    assert (∀ i, length (delete i (unusedCacheBackends s))
                 ≤ unusedCacheCapacity) as Hdel'
      by (intros i; specialize (Hdel i (unusedCacheBackends s)); lia).
    destruct (cacheBackends s !! target) as [w|];
      [destruct (isNull s w); [|done]|];
      destruct (list_find _ (unusedCacheBackends s)) as [[i c]|]; cbn;
      done.
  - done.
  - rewrite backendReleased_run. cbn. rewrite length_take.
    unfold unusedCacheCapacity. lia.
  - unfold test_clearCache. run_step.
    rewrite run_bind, clear_loop_run. cbv beta iota zeta.
    rewrite run_modify. cbn. lia.
  - unfold cleanupBackendThread. run_step.
    rewrite run_bind, clear_loop_run. cbv beta iota zeta.
    do 2 run_step. rewrite run_modify. cbn. lia.
Qed.

(** X18. The cache of unreferenced Backends never holds more than five:
    after any sequence of registry operations (instance requests,
    references dropped, deleter calls, cache clearing, thread cleanup) from
    the initial statics, in any order. *)
Theorem idle_cache_never_exceeds_capacity (steps : list Step) :
  length (unusedCacheBackends (state_of (run steps empty)))
  ≤ unusedCacheCapacity.
Proof.
  assert (∀ s, length (unusedCacheBackends s) ≤ unusedCacheCapacity →
               length (unusedCacheBackends (state_of (run steps s)))
               ≤ unusedCacheCapacity) as Hgen.
  { induction steps as [|st steps IH]; intros s Hs; [done|].
    unfold run in *. cbn [for_each]. rewrite state_of_bind.
    apply IH. by apply step_keeps_bound. }
  apply Hgen. cbn. unfold unusedCacheCapacity. lia.
Qed.

Lemma released_entry_gone (backend : Object) (s : t) :
  unreferenced s (m_target backend) = true →
  cacheBackends (state_of (backendReleased backend s)) !! m_target backend
  = None.
Proof.
  unfold unreferenced. intros Hun. rewrite backendReleased_run. cbn.
  destruct (cacheBackends s !! m_target backend) as [w|] eqn:Hw; [|done].
  rewrite Hun. apply lookup_delete_eq.
Qed.

(** X19. A Backend released into the cache is handed out again as it is.
    When the last reference to a Backend is gone and its deleter has run,
    the next [instance] request for its target returns that very Backend
    under a new control block holding one reference, takes it out of the
    cache and registers it; nothing is constructed and nothing deleted. *)
Theorem released_backend_is_restored (backend : Object) (s : t) :
  unreferenced s (m_target backend) = true →
  let s1 := state_of (backendReleased backend s) in
  let r := instance (m_target backend) s1 in
  object (value_of r) = backend
  ∧ trace_of r = []
  ∧ unusedCacheBackends (state_of r) = take 4 (unusedCacheBackends s)
  ∧ cacheBackends (state_of r) !! m_target backend = Some (value_of r)
  ∧ strong_count (state_of r) (value_of r) = 1
  ∧ objects (state_of r) = objects s.
Proof.
  intros Hun. cbv zeta.
  pose proof (released_entry_gone backend s Hun) as Hgone.
  set (s1 := state_of (backendReleased backend s)) in *.
  assert (unusedCacheBackends s1 = backend :: take 4 (unusedCacheBackends s)
          ∧ strongref s1 = strongref s ∧ objects s1 = objects s
          ∧ blocks s1 = blocks s) as (Hun1 & Hsr & Hob & Hbl).
  { subst s1. by rewrite backendReleased_run. }
  rewrite instance_run. cbv zeta. rewrite Hgone, Hun1.
  cbn [list_find]. rewrite decide_True by done.
  unfold state_of, value_of, trace_of, strong_count.
  cbn [fst snd object block cacheBackends strongref unusedCacheBackends
       objects blocks fmap option_fmap option_map].
  rewrite !lookup_insert_eq. done.
Qed.

(** The statement above on the registry of one handle that went away. *)
Lemma released_backend_is_restored_witness :
  let s1 := state_of (backendReleased Scenario.test_backend
                        Scenario.unreferenced_registry) in
  object (value_of (instance Examples.test_target s1)) = Scenario.test_backend
  ∧ trace_of (instance Examples.test_target s1) = [].
Proof.
  pose proof (released_backend_is_restored Scenario.test_backend
                Scenario.unreferenced_registry eq_refl) as H.
  exact (conj (proj1 H) (proj1 (proj2 H))).
Defined.

Lemma instance_registers (target : Target.t) (s : t) :
  cacheBackends (state_of (instance target s)) !! target
  = Some (value_of (instance target s))
  ∧ isNull (state_of (instance target s)) (value_of (instance target s)) = false.
Proof.
  rewrite instance_run. cbv zeta. unfold isNull, strong_count.
  destruct (cacheBackends s !! target) as [w|] eqn:Hw;
    [destruct (bool_decide (default 0 (strongref s !! block w) = 0)) eqn:Hn|].
  2:{ cbn. by rewrite Hw, lookup_insert_eq. }
  all: destruct (list_find _ (unusedCacheBackends s)) as [[i c]|]; cbn;
    by rewrite !lookup_insert_eq.
Qed.

(** X20. Handles of one target share one Backend. Whatever the registry
    holds, a second [instance] request for a target, made while the
    reference returned by the first is alive, returns the same Backend under
    the same control block and only counts one more reference: nothing is
    constructed, restored or deleted, so the properties are requested
    once. *)
Theorem second_instance_shares_the_backend (target : Target.t) (s : t) :
  let r1 := instance target s in
  let r2 := instance target (state_of r1) in
  value_of r2 = value_of r1
  ∧ trace_of r2 = []
  ∧ strong_count (state_of r2) (value_of r1)
    = S (strong_count (state_of r1) (value_of r1))
  ∧ unusedCacheBackends (state_of r2) = unusedCacheBackends (state_of r1)
  ∧ cacheBackends (state_of r2) = cacheBackends (state_of r1)
  ∧ objects (state_of r2) = objects (state_of r1).
Proof.
  cbv zeta. destruct (instance_registers target s) as [Hreg Hlive].
  rewrite (instance_run target (state_of (instance target s))). cbv zeta.
  rewrite Hreg, Hlive. unfold state_of at 1 3 5 7, value_of at 1, trace_of.
  cbn [fst snd]. unfold strong_count at 1. cbn. by rewrite lookup_insert_eq.
Qed.

Lemma released_all_keeps (os : list Object) (s : t) (target : Target.t) :
  cacheBackends s !! target = None →
  cacheBackends (state_of (for_each os backendReleased s)) !! target = None
  ∧ objects (state_of (for_each os backendReleased s)) = objects s
  ∧ blocks (state_of (for_each os backendReleased s)) = blocks s.
Proof.
  revert s. induction os as [|o os IH]; intros s Hnone; [done|].
  cbn [for_each]. rewrite state_of_bind.
  destruct (IH (state_of (backendReleased o s))) as (H1 & H2 & H3).
  { rewrite backendReleased_run. cbn.
    destruct (cacheBackends s !! m_target o) as [w|]; [|done].
    destruct (isNull s w); [|done]. by apply lookup_delete_None; right. }
  rewrite H1, H2, H3. by rewrite backendReleased_run.
Qed.

(** X21. A Backend pushed out of the cache is built anew. When a Backend
    is released and five Backends of other targets are released after it,
    it has been scheduled for deletion, the cache holds exactly those five
    (the latest first), and the next [instance] request for its target
    finds nothing to restore: it constructs a new Backend, whose load
    starts from scratch. *)
Theorem evicted_backend_is_constructed_anew (backend : Object)
    (others : list Object) (s : t) :
  unreferenced s (m_target backend) = true →
  length others = unusedCacheCapacity →
  Forall (λ o, m_target o ≠ m_target backend) others →
  let r := for_each (backend :: others) backendReleased s in
  let again := instance (m_target backend) (state_of r) in
  backend ∈ deleted (trace_of r)
  ∧ unusedCacheBackends (state_of r) = reverse others
  ∧ constructed (trace_of again)
    = [{| address := objects s; m_target := m_target backend |}]
  ∧ object (value_of again)
    = {| address := objects s; m_target := m_target backend |}
  ∧ unusedCacheBackends (state_of again) = reverse others.
Proof.
  intros Hun Hlen Hother. cbv zeta.
  assert (unusedCacheBackends
            (state_of (for_each (backend :: others) backendReleased s))
          = reverse others) as Hidle.
  { rewrite released_all_unused, reverse_cons, <- (assoc_L (++)).
    apply take_app_length'. by rewrite length_reverse. }
  assert (backend ∉ reverse others) as Hnotin.
  { rewrite elem_of_reverse. intros Hin.
    by apply (proj1 (Forall_forall _ _) Hother) in Hin. }
  split; [|split; [done|]].
  - destruct (released_all_conserves (backend :: others) s) as [Hperm _].
    rewrite Hidle in Hperm.
    assert (backend ∈ reverse others
                      ++ deleted (trace_of (for_each (backend :: others)
                                              backendReleased s))) as Hin.
    { rewrite Hperm, reverse_cons. set_solver. }
    apply elem_of_app in Hin as [Hin|Hin]; [done|done].
  - cbn [for_each] in *. rewrite state_of_bind in *.
    destruct (released_all_keeps others (state_of (backendReleased backend s))
                (m_target backend) (released_entry_gone backend s Hun))
      as (Hnone & Hob & Hbl).
    rewrite instance_run. cbv zeta. rewrite Hnone, Hidle.
    assert (list_find (λ o, m_target o = m_target backend) (reverse others)
            = None) as ->.
    { apply list_find_None, Forall_reverse. done. }
    rewrite Hob, backendReleased_run.
    unfold state_of, value_of, trace_of. cbn [fst snd object objects
      unusedCacheBackends].
    rewrite constructed_app. by destruct (backendThread _).
Qed.

(** The statement above on the registry of the persistence test: the test
    Backend is released, then five Backends of other paths. *)
Lemma evicted_backend_is_constructed_anew_witness :
  let r := for_each (Scenario.test_backend :: Scenario.other_backends)
             backendReleased Scenario.unreferenced_registry in
  Scenario.test_backend ∈ deleted (trace_of r)
  ∧ constructed (trace_of (instance Examples.test_target (state_of r)))
    = [{| address := 1; m_target := Examples.test_target |}].
Proof.
  assert (Forall (λ o, m_target o ≠ m_target Scenario.test_backend)
            Scenario.other_backends) as Hother
    by (repeat constructor; by intros [=]).
  pose proof (evicted_backend_is_constructed_anew Scenario.test_backend
                Scenario.other_backends Scenario.unreferenced_registry
                eq_refl eq_refl Hother) as H.
  exact (conj (proj1 H) (proj1 (proj2 (proj2 H)))).
Defined.

End registry.
